(** * Cross-venue arbitrage core: fee model, in-flight set, circuit breaker

    A shallow embedding of the Python and Rust fragments that the planning
    documents of the repository give for the arbitrage core
    (poly-kalshi-arb integration plan and the arbitrage strategy notes),
    and the properties the specification states about them.

    Conventions.
    - Python [int] is [Z]; [//] and [%] with a positive divisor are [Z.div]
      and [Z.modulo] (both round towards minus infinity, as Python does).
    - Python [float] is the primitive binary64 [float]: [+], [-], [*] and
      [<] are the IEEE operations Python performs, and a decimal literal
      denotes the nearest double, as in Python.  A comparison of an [int]
      with a [float] is exact, as Python's is.  (Only the dollar gate of
      the strategy notes is stated on rationals, for whole cents.)
    - Rust integer arithmetic of unknown width takes the bounds of the type
      as parameters; where a result leaves them, a debug build panics and a
      release build wraps around.
    - A Python list is a [list] with stdpp's lookup and insert, the range
      check of Python's subscript written out; a [dict] is a [gmap].
    - A call that raises returns the exception as a value and the receiver
      unchanged (both methods below raise before they write). *)

From Stdlib Require Import Floats.
From Stdlib Require Import ZArith QArith Qround Lia.
From stdpp Require Import gmap strings list fin_maps.

Local Open Scope Z_scope.

(** ** Part I. The program *)

(** *** Fee model *)

(** [kalshi_fee_cents]: zero outside 1..100, otherwise the integer form of
    [ceil(7 * p * (100 - p) / 10000)]. *)
Definition kalshi_fee_cents (price_cents : Z) : Z :=
  if (100 <? price_cents) || (price_cents =? 0) then 0
  else
    let numerator := 7 * price_cents * (100 - price_cents) + 9999 in
    numerator / 10000.

(** [KALSHI_FEE_TABLE = [0] * 101], then one assignment per [p] of
    [range(1, 100)]. *)
Definition fee_table_assign (table : list Z) (p : Z) : list Z :=
  let numerator := 7 * p * (100 - p) + 9999 in
  <[Z.to_nat p := numerator / 10000]> table.

Definition KALSHI_FEE_TABLE : list Z :=
  fold_left fee_table_assign (seqZ 1 99) (replicate 101 0).

(** The closed form the table is compared with: the ceiling of the rational
    [7 * p * (100 - p) / 10000]. *)
Definition fee_closed_form (p : Z) : Z :=
  Qceiling (inject_Z (7 * p * (100 - p)) / inject_Z 10000)%Q.

(** The entries that the Rust excerpt of [KALSHI_FEE_TABLE] prints (prices
    0 to 19; the rest of the 101 entries is elided there). *)
Definition RUST_FEE_TABLE_EXCERPT : list Z :=
  [0; 0; 0; 0; 0; 0; 0; 0; 0; 0;
   1; 1; 1; 1; 1; 2; 2; 2; 2; 2].

(** The check of one price point, run over all of them below. *)
Definition fee_point_ok (p : Z) : bool :=
  bool_decide (KALSHI_FEE_TABLE !! Z.to_nat p = Some (fee_closed_form p))
  && (kalshi_fee_cents p =? fee_closed_form p).

(** *** In-flight deduplication (Python [InFlightDedupe]) *)

(** The result of a call: a returned value or the exception raised. *)
Inductive exn := IndexError.

Inductive outcome (A : Type) :=
  | Returns (a : A)
  | Raises (e : exn).
Arguments Returns {A} a.
Arguments Raises {A} e.

(** Python's subscript on a list of length [len]: indices [0 .. len-1]
    count from the front, [-len .. -1] from the back, anything else raises
    [IndexError]. *)
Definition py_index (len : nat) (i : Z) : option nat :=
  if 0 <=? i then
    (if i <? Z.of_nat len then Some (Z.to_nat i) else None)
  else
    (if - Z.of_nat len <=? i then Some (Z.to_nat (Z.of_nat len + i)) else None).

(** The object's fields; the lock only makes each method body atomic, which
    is how the methods are modelled. *)
Record InFlightDedupe := mkInFlightDedupe {
  num_slots : Z;
  bitmask : list Z
}.

Definition InFlightDedupe_init (num_markets : Z) : InFlightDedupe :=
  let n := num_markets / 64 in
  {| num_slots := n; bitmask := replicate (Z.to_nat n) 0 |}.

(** The default constructor call, [InFlightDedupe()]. *)
Definition InFlightDedupe_default : InFlightDedupe := InFlightDedupe_init 512.

Definition set_slot (self : InFlightDedupe) (i : nat) (w : Z) : InFlightDedupe :=
  {| num_slots := num_slots self; bitmask := <[i := w]> (bitmask self) |}.

Definition try_claim (self : InFlightDedupe) (market_id : Z)
  : outcome bool * InFlightDedupe :=
  let slot := market_id / 64 in
  let bit := market_id mod 64 in
  let mask := Z.shiftl 1 bit in
  match py_index (length (bitmask self)) slot with
  | None => (Raises IndexError, self)
  | Some i =>
      match bitmask self !! i with
      | None => (Raises IndexError, self)
      | Some w =>
          if negb (Z.land w mask =? 0) then (Returns false, self)
          else (Returns true, set_slot self i (Z.lor w mask))
      end
  end.

Definition release (self : InFlightDedupe) (market_id : Z)
  : outcome unit * InFlightDedupe :=
  let slot := market_id / 64 in
  let bit := market_id mod 64 in
  let mask := Z.shiftl 1 bit in
  match py_index (length (bitmask self)) slot with
  | None => (Raises IndexError, self)
  | Some i =>
      match bitmask self !! i with
      | None => (Raises IndexError, self)
      | Some w => (Returns tt, set_slot self i (Z.land w (Z.lnot mask)))
      end
  end.

(** A client's operations on one shared [InFlightDedupe], and what each
    one observed. *)
Inductive op :=
  | TryClaim (market_id : Z)
  | Release (market_id : Z).

Definition op_market (o : op) : Z :=
  match o with TryClaim m | Release m => m end.

Inductive observed :=
  | Claim (b : bool)
  | Released
  | Raised (e : exn).

Definition step (self : InFlightDedupe) (o : op) : observed * InFlightDedupe :=
  match o with
  | TryClaim m =>
      match try_claim self m with
      | (Returns b, self') => (Claim b, self')
      | (Raises e, self') => (Raised e, self')
      end
  | Release m =>
      match release self m with
      | (Returns _, self') => (Released, self')
      | (Raises e, self') => (Raised e, self')
      end
  end.

(** Runs the operations in order; the trace pairs each with its result. *)
Fixpoint run (self : InFlightDedupe) (ops : list op)
  : list (op * observed) * InFlightDedupe :=
  match ops with
  | [] => ([], self)
  | o :: rest =>
      let '(r, self') := step self o in
      let '(tr, final) := run self' rest in
      ((o, r) :: tr, final)
  end.

(** What the [try_claim] calls on [m] returned, in order. *)
Fixpoint claims_on (m : Z) (tr : list (op * observed)) : list observed :=
  match tr with
  | [] => []
  | (TryClaim k, r) :: rest =>
      if k =? m then r :: claims_on m rest else claims_on m rest
  | (Release _, _) :: rest => claims_on m rest
  end.

Fixpoint count_claims (m : Z) (ops : list op) : nat :=
  match ops with
  | [] => O
  | TryClaim k :: rest =>
      if k =? m then S (count_claims m rest) else count_claims m rest
  | Release _ :: rest => count_claims m rest
  end.

(** The first claim wins, every later one loses. *)
Definition first_wins (n : nat) : list observed :=
  match n with
  | O => []
  | S k => Claim true :: replicate k (Claim false)
  end.

(** Whether the bit of market [m] is set (the market is in flight). *)
Definition in_flight (self : InFlightDedupe) (m : Z) : bool :=
  match bitmask self !! Z.to_nat (m / 64) with
  | Some w => Z.testbit w (m mod 64)
  | None => false
  end.

(** The market ids the bitmask has a bit for. *)
Definition valid_market (self : InFlightDedupe) (m : Z) : Prop :=
  0 <= m < 64 * Z.of_nat (length (bitmask self)).

(** The InFlightSet as the specification words it: a set of market ids; a
    claim succeeds when the id is not in the set and adds it, a release
    removes it. *)
Definition set_step (inflight : gset Z) (o : op) : observed * gset Z :=
  match o with
  | TryClaim m => (Claim (bool_decide (m ∉ inflight)), {[m]} ∪ inflight)
  | Release m => (Released, inflight ∖ {[m]})
  end.

Fixpoint set_run (inflight : gset Z) (ops : list op)
  : list (op * observed) * gset Z :=
  match ops with
  | [] => ([], inflight)
  | o :: rest =>
      let '(r, inflight') := set_step inflight o in
      let '(tr, final) := set_run inflight' rest in
      ((o, r) :: tr, final)
  end.

(** The bitmask of [self] holds exactly the markets of [inflight]. *)
Definition represents (self : InFlightDedupe) (inflight : gset Z) : Prop :=
  forall k, valid_market self k -> in_flight self k = bool_decide (k ∈ inflight).

(** *** In-flight deduplication (Rust excerpt of [execution.rs]) *)

(** [in_flight: [AtomicU64; 8]], [market_id: u16].  [fetch_or] stores
    [prev | mask] and yields [prev]; the words are 64 bits wide. *)
Definition u64 (z : Z) : Z := z mod 2 ^ 64.

Inductive claim_result :=
  | Proceeds
  | AlreadyInFlight
  | Panics.

Definition rust_claim (in_flight : list Z) (market_id : Z)
  : claim_result * list Z :=
  if market_id <? 512 then
    let slot := Z.to_nat (market_id / 64) in
    let bit := market_id mod 64 in
    let mask := u64 (Z.shiftl 1 bit) in
    match in_flight !! slot with
    | Some prev =>
        let in_flight' := <[slot := Z.lor prev mask]> in_flight in
        if negb (Z.land prev mask =? 0) then (AlreadyInFlight, in_flight')
        else (Proceeds, in_flight')
    | None => (Panics, in_flight)
    end
  else (Proceeds, in_flight).

(** *** Circuit breaker (Python [CircuitBreaker]) *)

(** [x < y] on rationals, as a boolean. *)
Definition Qltb (x y : Q) : bool :=
  (Qnum x * Zpos (Qden y) <? Qnum y * Zpos (Qden x)).

Record CircuitBreaker := mkCircuitBreaker {
  max_position_per_market : Z;       (* contracts *)
  max_total_position : Z;            (* contracts *)
  max_daily_loss : float;            (* dollars *)
  max_consecutive_errors : Z;
  cooldown_secs : Z;
  halted : bool;
  daily_pnl_cents : Z;
  positions : gmap Z Z;              (* market_id to open contracts *)
  consecutive_errors : Z;
  halt_reason : option string        (* not in __init__: what a trip records *)
}.

(** [CircuitBreaker()]: the limits and counters of [__init__]. *)
Definition CircuitBreaker_init : CircuitBreaker :=
  {| max_position_per_market := 50000;
     max_total_position := 100000;
     max_daily_loss := 50.0;
     max_consecutive_errors := 5;
     cooldown_secs := 60;
     halted := false;
     daily_pnl_cents := 0;
     positions := ∅;
     consecutive_errors := 0;
     halt_reason := None |}.

(** [self.positions.get(market_id, 0)] *)
Definition position_of (self : CircuitBreaker) (market_id : Z) : Z :=
  default 0 (positions self !! market_id).

(** [sum(self.positions.values())] *)
Definition total_position (self : CircuitBreaker) : Z :=
  map_fold (fun _ v acc => v + acc) 0 (positions self).

(** [-self.max_daily_loss * 100], the daily floor in cents: the negated
    limit times [100.0], in double precision. *)
Definition daily_floor_cents (self : CircuitBreaker) : float :=
  (- max_daily_loss self * 100)%float.

(** Python's [z < f] for an [int] and a [float]: the two are compared as
    numbers, without rounding the [int].  A NaN is below and above
    nothing. *)
Definition Z_ltb_float (z : Z) (f : float) : bool :=
  match Prim2SF f with
  | S754_nan => false
  | S754_infinity negative => negb negative
  | S754_zero _ => z <? 0
  | S754_finite negative m e =>
      let v := if negative then Z.neg m else Z.pos m in
      if 0 <=? e then z <? v * 2 ^ e else z * 2 ^ (- e) <? v
  end.

(** A limit of a whole number of dollars, as the [float] that holds it. *)
Definition whole_dollars (d : Z) : float := PrimFloat.of_uint63 (Uint63.of_Z d).

(** [can_execute] calls [self.trip(reason)], a method the source does not
    define: it is a parameter here, and the properties below say what they
    need of it. *)
Section CanExecute.
Variable trip : CircuitBreaker -> string -> CircuitBreaker.

Definition can_execute (self : CircuitBreaker) (market_id contracts : Z)
  : bool * CircuitBreaker :=
  if halted self then (false, self)
  else if max_position_per_market self <? position_of self market_id + contracts
  then (false, self)
  else if max_total_position self <? total_position self + contracts
  then (false, self)
  else if Z_ltb_float (daily_pnl_cents self) (daily_floor_cents self)
  then (false, trip self "Max daily loss exceeded")
  else (true, self).

(** Consecutive candidate checks against one breaker. *)
Fixpoint can_execute_all (self : CircuitBreaker) (cands : list (Z * Z))
  : list bool * CircuitBreaker :=
  match cands with
  | [] => ([], self)
  | (market_id, contracts) :: rest =>
      let '(b, self') := can_execute self market_id contracts in
      let '(bs, final) := can_execute_all self' rest in
      (b :: bs, final)
  end.

End CanExecute.

(** Modelled from the spec: [CircuitBreaker.trip], which [can_execute]
    calls but the source does not define; the instance of the parameter
    used in the examples.  Section 4.5: on a trip the
    breaker becomes Halted and records the reason.  (The cooldown deadline
    it also records is read by nothing in the source and is left out.) *)
Definition trip (self : CircuitBreaker) (reason : string) : CircuitBreaker :=
  {| max_position_per_market := max_position_per_market self;
     max_total_position := max_total_position self;
     max_daily_loss := max_daily_loss self;
     max_consecutive_errors := max_consecutive_errors self;
     cooldown_secs := cooldown_secs self;
     halted := true;
     daily_pnl_cents := daily_pnl_cents self;
     positions := positions self;
     consecutive_errors := consecutive_errors self;
     halt_reason := Some reason |}.

(** [self.daily_pnl_cents = pnl] and [self.consecutive_errors = n]: the two
    counters that fills and errors move. *)
Definition with_pnl (self : CircuitBreaker) (pnl : Z) : CircuitBreaker :=
  {| max_position_per_market := max_position_per_market self;
     max_total_position := max_total_position self;
     max_daily_loss := max_daily_loss self;
     max_consecutive_errors := max_consecutive_errors self;
     cooldown_secs := cooldown_secs self;
     halted := halted self;
     daily_pnl_cents := pnl;
     positions := positions self;
     consecutive_errors := consecutive_errors self;
     halt_reason := halt_reason self |}.

Definition with_errors (self : CircuitBreaker) (n : Z) : CircuitBreaker :=
  {| max_position_per_market := max_position_per_market self;
     max_total_position := max_total_position self;
     max_daily_loss := max_daily_loss self;
     max_consecutive_errors := max_consecutive_errors self;
     cooldown_secs := cooldown_secs self;
     halted := halted self;
     daily_pnl_cents := daily_pnl_cents self;
     positions := positions self;
     consecutive_errors := n;
     halt_reason := halt_reason self |}.

(** The daily-loss test of [can_execute] holds. *)
Definition below_floor (self : CircuitBreaker) : Prop :=
  Z_ltb_float (daily_pnl_cents self) (daily_floor_cents self) = true.

(** The check of the floor of one whole-dollar limit, run over a range of
    limits below: the test holds one cent under [-100 * d] and fails at
    [-100 * d]. *)
Definition floor_point_ok (d : Z) : bool :=
  let floor := (- whole_dollars d * 100)%float in
  Z_ltb_float (- (100 * d) - 1) floor && negb (Z_ltb_float (- (100 * d)) floor).

(** Both position checks of [can_execute] let the candidate through. *)
Definition within_caps (self : CircuitBreaker) (market_id contracts : Z) : bool :=
  negb (max_position_per_market self <? position_of self market_id + contracts)
  && negb (max_total_position self <? total_position self + contracts).

(** *** Opportunity detection *)

(** The free names of the detector: [min_profit] and [max_capital] are
    configuration; [position_size] is bound by nothing in the source, so
    it is a module-level name that may well not exist. *)
Record DetectorGlobals := mkDetectorGlobals {
  min_profit : float;      (* dollars *)
  max_capital : float;
  position_size : option float
}.

Inductive Signal :=
  | buy_both (position_size_entry expected_profit : float)
  | sell_both.

(** What a call yields: a value, or the [NameError] of an unbound name. *)
Inductive py_result (A : Type) :=
  | Value (a : A)
  | NameError (name : string).
Arguments Value {A} a.
Arguments NameError {A} name.

(** Python's [min(a, b)]: [b] only when [b < a]. *)
Definition py_min (a b : float) : float := if (b <? a)%float then b else a.

(** [detect_single_condition_arbitrage]; falling off the end returns
    [None].  The dictionary of the buy branch is built entry by entry, and
    its last entry reads the free name [position_size]. *)
Definition detect_single_condition_arbitrage (g : DetectorGlobals)
    (yes_price no_price liquidity : float) : py_result (option Signal) :=
  let sum_price := (yes_price + no_price)%float in
  if (sum_price <? 1.00 - min_profit g)%float then
    let profit_per_dollar := (1.00 - sum_price)%float in
    let entry := py_min liquidity (max_capital g) in
    match position_size g with
    | Some bound => Value (Some (buy_both entry (profit_per_dollar * bound)%float))
    | None => NameError "position_size"
    end
  else if (1.00 + min_profit g <? sum_price)%float then
    Value (Some sell_both)
  else Value None.

(** The call took the buy branch (whether it got to return from it). *)
Definition takes_buy_branch (r : py_result (option Signal)) : bool :=
  match r with
  | NameError _ | Value (Some (buy_both _ _)) => true
  | Value (Some sell_both) | Value None => false
  end.

(** The oracle-risk gate of the cross-platform path: a candidate whose
    profit is under [MIN_ARB_SPREAD] is skipped. *)
Definition MIN_ARB_SPREAD : Z := 15.

Definition spread_gate (profit_cents : Z) : option Z :=
  if profit_cents <? MIN_ARB_SPREAD then None else Some profit_cents.

(** The rule as the specification words it, in cents, for two legs with
    fee functions [fee_a] and [fee_b]. *)
Definition netProfit (fee_a fee_b : Z -> Z) (price_a price_b : Z) : Z :=
  100 - price_a - price_b - fee_a price_a - fee_b price_b.

Definition spec_emits (min_profit_threshold : Z) (fee_a fee_b : Z -> Z)
    (price_a price_b size_a size_b : Z) : Prop :=
  min_profit_threshold <= netProfit fee_a fee_b price_a price_b
  /\ 0 < Z.min size_a size_b.

(** A dollar price as cents. *)
Definition dollars (cents : Z) : Q := (inject_Z cents / 100)%Q.

(** *** Partial-fill reconciliation (Rust excerpt) *)

Record Reconciled := mkReconciled {
  matched : Z;
  success : bool;
  actual_profit : Z
}.

(** How a build treats a result outside the integer type. *)
Inductive overflow_mode :=
  | PanicOnOverflow    (* debug build *)
  | WrapOnOverflow.    (* release build *)

Section FixedWidth.
(** The excerpt does not say which integer type the amounts have: its
    least and greatest value are parameters. *)
Variables (int_min int_max : Z).
Variable mode : overflow_mode.

Definition fits (x : Z) : Prop := int_min <= x <= int_max.

Definition wrap (x : Z) : Z :=
  int_min + (x - int_min) mod (int_max - int_min + 1).

(** One arithmetic result: itself when it fits; otherwise a panic ([None])
    in a debug build, the wrapped value in a release build. *)
Definition arith (x : Z) : option Z :=
  if (int_min <=? x) && (x <=? int_max) then Some x
  else match mode with
       | PanicOnOverflow => None
       | WrapOnOverflow => Some (wrap x)
       end.

(** [matched = yes_filled.min(no_filled)], [success = matched > 0],
    [actual_profit = matched * 100 - (yes_cost + no_cost)]. *)
Definition reconcile (yes_filled no_filled yes_cost no_cost : Z)
  : option Reconciled :=
  let matched := Z.min yes_filled no_filled in
  let success := 0 <? matched in
  gross ← arith (matched * 100);
  cost ← arith (yes_cost + no_cost);
  actual_profit ← arith (gross - cost);
  Some {| matched := matched; success := success; actual_profit := actual_profit |}.

End FixedWidth.

(** *** Position and P&L ledger *)

Inductive Side := YES | NO.

Inductive Venue := VenueA | VenueB.

(** Modelled from the spec: what a venue reports for an order handle
    (section 6, [getStatus]); the source has no such type. *)
Inductive OrderStatus :=
  | Pending
  | Filled (size : Z)
  | PartiallyFilled (size : Z)
  | Cancelled
  | Rejected.

Definition filled_size (st : OrderStatus) : Z :=
  match st with
  | Filled n | PartiallyFilled n => n
  | Pending | Cancelled | Rejected => 0
  end.

(** Modelled from the spec: the Position entity of section 3, absent from
    the source.  Per market: contract count per side and cumulative cost
    basis. *)
Record Position := mkPosition {
  yes_contracts : Z;
  no_contracts : Z;
  cost_basis : Z
}.

Definition no_position : Position :=
  {| yes_contracts := 0; no_contracts := 0; cost_basis := 0 |}.

Definition ledger_position (ledger : gmap Z Position) (marketId : Z) : Position :=
  default no_position (ledger !! marketId).

(** Modelled from the spec: the Ledger's [recordFill(marketId, venue, side,
    price, size)], which the source does not contain.  Section 3 and 4.7: a
    confirmed fill adds its size to the position of its market and side and
    its cost to the cumulative cost basis. *)
Definition recordFill (marketId : Z) (venue : Venue) (side : Side)
    (price size : Z) (ledger : gmap Z Position) : gmap Z Position :=
  let p := ledger_position ledger marketId in
  let p' :=
    match side with
    | YES => {| yes_contracts := yes_contracts p + size;
                no_contracts := no_contracts p;
                cost_basis := cost_basis p + price * size |}
    | NO => {| yes_contracts := yes_contracts p;
               no_contracts := no_contracts p + size;
               cost_basis := cost_basis p + price * size |}
    end in
  <[marketId := p']> ledger.

(** Modelled from the spec: how the Execution Engine hands the two leg
    results to the Ledger (section 4.6 step 5, section 4.7), which the
    source does not contain.  A leg is recorded only when the venue
    confirms a fill, and with the size the venue confirms. *)
Definition record_leg (marketId : Z) (venue : Venue) (side : Side)
    (price : Z) (st : OrderStatus) (ledger : gmap Z Position)
  : gmap Z Position :=
  if 0 <? filled_size st then
    recordFill marketId venue side price (filled_size st) ledger
  else ledger.

(** Modelled from the spec: step 5 of section 4.6 for one execution, absent
    from the source as a whole: the two leg results are reconciled, with
    the source's [reconcile], and each leg is handed to the Ledger. *)
Definition settle_legs (int_min int_max : Z) (mode : overflow_mode)
    (marketId : Z) (yes_price no_price : Z)
    (yes_leg no_leg : OrderStatus) (ledger : gmap Z Position)
  : option Reconciled * gmap Z Position :=
  let yes_filled := filled_size yes_leg in
  let no_filled := filled_size no_leg in
  (reconcile int_min int_max mode yes_filled no_filled
     (yes_price * yes_filled) (no_price * no_filled),
   record_leg marketId VenueB NO no_price no_leg
     (record_leg marketId VenueA YES yes_price yes_leg ledger)).

(** *** Orderbook state store *)

(** Modelled from the spec: the OrderbookSnapshot of section 3 and the
    store that holds one per venue and market, both absent from the
    source: best asks, the size at each, and the version. *)
Record OrderbookSnapshot := mkSnapshot {
  yes_ask : Z;
  no_ask : Z;
  yes_size : Z;
  no_size : Z;
  version : Z
}.

Record OrderbookStore := mkStore {
  snapshots : gmap (bool * Z) OrderbookSnapshot;  (* keyed by venue, market *)
  stale_dropped : nat                             (* the metric *)
}.

Definition venue_key (venue : Venue) (marketId : Z) : bool * Z :=
  (match venue with VenueA => false | VenueB => true end, marketId).

(** Modelled from the spec: the store's [update(venue, marketId,
    snapshot)], which the source does not contain.  Section 4.1: accepted
    only if [snapshot.version > current.version]; a stale or equal version
    is discarded and counted, never an error.  The first snapshot of a
    market has no current version to lose against. *)
Definition update (venue : Venue) (marketId : Z) (snapshot : OrderbookSnapshot)
    (store : OrderbookStore) : OrderbookStore :=
  let k := venue_key venue marketId in
  match snapshots store !! k with
  | Some current =>
      if version current <? version snapshot then
        {| snapshots := <[k := snapshot]> (snapshots store);
           stale_dropped := stale_dropped store |}
      else
        {| snapshots := snapshots store;
           stale_dropped := S (stale_dropped store) |}
  | None =>
      {| snapshots := <[k := snapshot]> (snapshots store);
         stale_dropped := stale_dropped store |}
  end.

(** Whether [update] would take [snapshot] in [store]. *)
Definition accepts (venue : Venue) (marketId : Z) (snapshot : OrderbookSnapshot)
    (store : OrderbookStore) : bool :=
  match snapshots store !! venue_key venue marketId with
  | Some current => version current <? version snapshot
  | None => true
  end.

Definition empty_store : OrderbookStore :=
  {| snapshots := ∅; stale_dropped := O |}.

(** *** Further fragments of the integration plan and the strategy notes *)

(** A Rust [u16] and a Rust [u64], as ranges of [Z]. *)
Definition is_u16 (x : Z) : Prop := 0 <= x < 2 ^ 16.
Definition is_u64 (x : Z) : Prop := 0 <= x < 2 ^ 64.

(** [pack_orderbook] of [types.rs]: each argument is cast to [u64], shifted
    into place (the shift drops what leaves the 64 bits) and or-ed in. *)
Definition pack_orderbook (yes_ask no_ask yes_size no_size : Z) : Z :=
  Z.lor (Z.lor (Z.lor (u64 (Z.shiftl (u64 yes_ask) 48))
                      (u64 (Z.shiftl (u64 no_ask) 32)))
               (u64 (Z.shiftl (u64 yes_size) 16)))
        (u64 no_size).

(** The 16-bit field that starts at bit [offset], as the layout comment
    [[yes_ask:16][no_ask:16][yes_size:16][no_size:16]] places the four. *)
Definition book_field (word offset : Z) : Z :=
  Z.land (Z.shiftr word offset) (Z.ones 16).

(** The oracle-risk gate of the strategy notes, on a spread in dollars:
    [if spread < 0.15: return None]. *)
Definition oracle_risk_gate (spread : Q) : option Q :=
  if Qltb spread (15 / 100)%Q then None else Some spread.

(** ** Part II. Properties *)

(** *** Bit-level facts about one mask word *)

Section MaskBits.
Variables (w b : Z).
Hypothesis Hb : 0 <= b.

Lemma mask_is_pow2 : Z.shiftl 1 b = 2 ^ b.
Proof. rewrite Z.shiftl_mul_pow2 by lia. lia. Qed.

Lemma testbit_mask (c : Z) : Z.testbit (Z.shiftl 1 b) c = (b =? c).
Proof. rewrite mask_is_pow2. apply Z.pow2_bits_eqb. lia. Qed.

Lemma land_mask_zero : (Z.land w (Z.shiftl 1 b) =? 0) = negb (Z.testbit w b).
Proof.
  destruct (Z.testbit w b) eqn:Hbit; simpl.
  - apply Z.eqb_neq. intros Hz.
    assert (Hc : Z.testbit (Z.land w (Z.shiftl 1 b)) b = true).
    { rewrite Z.land_spec, Hbit, testbit_mask, Z.eqb_refl. reflexivity. }
    rewrite Hz, Z.bits_0 in Hc. discriminate.
  - apply Z.eqb_eq. apply Z.bits_inj'. intros n Hn.
    rewrite Z.land_spec, testbit_mask, Z.bits_0.
    destruct (Z.eqb_spec b n) as [->|_].
    + rewrite Hbit. reflexivity.
    + apply andb_false_r.
Qed.

Lemma testbit_set (c : Z) :
  Z.testbit (Z.lor w (Z.shiftl 1 b)) c = Z.testbit w c || (b =? c).
Proof. rewrite Z.lor_spec, testbit_mask. reflexivity. Qed.

Lemma testbit_clear (c : Z) :
  0 <= c ->
  Z.testbit (Z.land w (Z.lnot (Z.shiftl 1 b))) c = Z.testbit w c && negb (b =? c).
Proof.
  intros Hc. rewrite Z.land_spec, Z.lnot_spec by lia.
  rewrite testbit_mask. reflexivity.
Qed.
End MaskBits.

(** *** Slots and market ids *)

Lemma py_index_valid (len : nat) (m : Z) :
  0 <= m < 64 * Z.of_nat len ->
  py_index len (m / 64) = Some (Z.to_nat (m / 64))
  /\ (Z.to_nat (m / 64) < len)%nat.
Proof.
  intros Hm. unfold py_index.
  assert (0 <= m / 64 < Z.of_nat len).
  { split; [apply Z.div_pos; lia | apply Z.div_lt_upper_bound; lia]. }
  destruct (Z.leb_spec 0 (m / 64)); [|lia].
  destruct (Z.ltb_spec (m / 64) (Z.of_nat len)); [|lia].
  split; [reflexivity | lia].
Qed.

Lemma py_index_beyond (len : nat) (m : Z) :
  64 * Z.of_nat len <= m -> py_index len (m / 64) = None.
Proof.
  intros Hm. unfold py_index.
  assert (Z.of_nat len <= m / 64) by (apply Z.div_le_lower_bound; lia).
  destruct (Z.leb_spec 0 (m / 64)); [|lia].
  destruct (Z.ltb_spec (m / 64) (Z.of_nat len)); [lia|reflexivity].
Qed.

Lemma bit_nonneg (m : Z) : 0 <= m mod 64.
Proof. apply Z.mod_pos_bound. lia. Qed.

Lemma same_slot_other_bit (m k : Z) :
  0 <= m -> 0 <= k -> k <> m ->
  Z.to_nat (k / 64) = Z.to_nat (m / 64) -> (m mod 64 =? k mod 64) = false.
Proof.
  intros Hm Hk Hne Hslot. apply Z.eqb_neq. intros Hbit.
  assert (0 <= m / 64) by (apply Z.div_pos; lia).
  assert (0 <= k / 64) by (apply Z.div_pos; lia).
  assert (k / 64 = m / 64) by lia.
  pose proof (Z.div_mod m 64). pose proof (Z.div_mod k 64). lia.
Qed.

(** Writing the slot of [m] changes the bit of no other market. *)
Lemma in_flight_set_slot_other (self : InFlightDedupe) (m k w w' : Z) :
  0 <= m -> 0 <= k -> k <> m ->
  bitmask self !! Z.to_nat (m / 64) = Some w ->
  (forall c, 0 <= c -> c <> m mod 64 -> Z.testbit w' c = Z.testbit w c) ->
  in_flight (set_slot self (Z.to_nat (m / 64)) w') k = in_flight self k.
Proof.
  intros Hm Hk Hne Hw Hbits. unfold in_flight, set_slot. simpl.
  destruct (decide (Z.to_nat (k / 64) = Z.to_nat (m / 64))) as [Heq|Hslot].
  - rewrite Heq, list_lookup_insert_eq by (eapply lookup_lt_Some; eauto).
    rewrite Hw. apply Hbits; [apply bit_nonneg|].
    pose proof (same_slot_other_bit m k Hm Hk Hne Heq) as Hb.
    apply Z.eqb_neq in Hb. congruence.
  - rewrite list_lookup_insert_ne by congruence. reflexivity.
Qed.

Lemma in_flight_set_slot_same (self : InFlightDedupe) (m w w' : Z) :
  bitmask self !! Z.to_nat (m / 64) = Some w ->
  in_flight (set_slot self (Z.to_nat (m / 64)) w') m = Z.testbit w' (m mod 64).
Proof.
  intros Hw. unfold in_flight, set_slot. simpl.
  rewrite list_lookup_insert_eq by (eapply lookup_lt_Some; eauto).
  reflexivity.
Qed.

Lemma set_slot_length (self : InFlightDedupe) (i : nat) (w : Z) :
  length (bitmask (set_slot self i w)) = length (bitmask self).
Proof. apply length_insert. Qed.

(** *** What one call does *)

Lemma try_claim_valid (self : InFlightDedupe) (m : Z) :
  valid_market self m ->
  exists self',
    try_claim self m = (Returns (negb (in_flight self m)), self')
    /\ in_flight self' m = true
    /\ length (bitmask self') = length (bitmask self)
    /\ (forall k, 0 <= k -> k <> m -> in_flight self' k = in_flight self k).
Proof.
  intros Hm. unfold try_claim.
  destruct (py_index_valid _ _ Hm) as [-> Hlt].
  destruct (lookup_lt_is_Some_2 _ _ Hlt) as [w Hw]. rewrite Hw.
  rewrite land_mask_zero by apply bit_nonneg. rewrite negb_involutive.
  assert (Hfl : in_flight self m = Z.testbit w (m mod 64))
    by (unfold in_flight; rewrite Hw; reflexivity).
  rewrite Hfl. destruct (Z.testbit w (m mod 64)) eqn:Hbit; simpl.
  - exists self. repeat split; auto.
  - eexists. split; [reflexivity|]. split; [|split].
    + rewrite (in_flight_set_slot_same _ _ w) by assumption.
      rewrite testbit_set by apply bit_nonneg.
      rewrite Z.eqb_refl. apply orb_true_r.
    + apply set_slot_length.
    + intros k Hk Hne. destruct Hm as [Hm0 _].
      apply (in_flight_set_slot_other self m k w); auto.
      intros c Hc Hcne. rewrite testbit_set by apply bit_nonneg.
      destruct (Z.eqb_spec (m mod 64) c); [congruence | apply orb_false_r].
Qed.

Lemma release_valid (self : InFlightDedupe) (m : Z) :
  valid_market self m ->
  exists self',
    release self m = (Returns tt, self')
    /\ in_flight self' m = false
    /\ length (bitmask self') = length (bitmask self)
    /\ (forall k, 0 <= k -> k <> m -> in_flight self' k = in_flight self k).
Proof.
  intros Hm. unfold release.
  destruct (py_index_valid _ _ Hm) as [-> Hlt].
  destruct (lookup_lt_is_Some_2 _ _ Hlt) as [w Hw]. rewrite Hw.
  eexists. split; [reflexivity|]. split; [|split].
  - rewrite (in_flight_set_slot_same _ _ w) by assumption.
    rewrite testbit_clear by apply bit_nonneg.
    rewrite Z.eqb_refl. apply andb_false_r.
  - apply set_slot_length.
  - intros k Hk Hne. destruct Hm as [Hm0 _].
    apply (in_flight_set_slot_other self m k w); auto.
    intros c Hc Hcne. rewrite testbit_clear by (apply bit_nonneg || assumption).
    destruct (Z.eqb_spec (m mod 64) c); [congruence | apply andb_true_r].
Qed.

Lemma try_claim_beyond (self : InFlightDedupe) (m : Z) :
  64 * Z.of_nat (length (bitmask self)) <= m ->
  try_claim self m = (Raises IndexError, self).
Proof. intros Hm. unfold try_claim. rewrite py_index_beyond by assumption. reflexivity. Qed.

Lemma release_beyond (self : InFlightDedupe) (m : Z) :
  64 * Z.of_nat (length (bitmask self)) <= m ->
  release self m = (Raises IndexError, self).
Proof. intros Hm. unfold release. rewrite py_index_beyond by assumption. reflexivity. Qed.

(** A call on a non-negative id other than [m] keeps the bit of [m] and
    the number of slots, whether it returns or raises. *)
Lemma step_other (self : InFlightDedupe) (o : op) (m : Z) :
  0 <= m -> 0 <= op_market o -> op_market o <> m ->
  in_flight (step self o).2 m = in_flight self m
  /\ length (bitmask (step self o).2) = length (bitmask self).
Proof.
  intros Hm Hk Hne.
  destruct (Z.lt_ge_cases (op_market o) (64 * Z.of_nat (length (bitmask self))))
    as [Hin|Hout].
  - assert (Hv : valid_market self (op_market o)) by (split; assumption).
    destruct o as [k|k]; simpl in *.
    + destruct (try_claim_valid self k Hv) as (s' & -> & _ & Hlen & Hoth).
      simpl. split; [apply Hoth; auto | exact Hlen].
    + destruct (release_valid self k Hv) as (s' & -> & _ & Hlen & Hoth).
      simpl. split; [apply Hoth; auto | exact Hlen].
  - destruct o as [k|k]; simpl in *.
    + rewrite try_claim_beyond by assumption. auto.
    + rewrite release_beyond by assumption. auto.
Qed.

Lemma step_claim_same (self : InFlightDedupe) (m : Z) :
  valid_market self m ->
  (step self (TryClaim m)).1 = Claim (negb (in_flight self m))
  /\ in_flight (step self (TryClaim m)).2 m = true
  /\ length (bitmask (step self (TryClaim m)).2) = length (bitmask self).
Proof.
  intros Hv. simpl.
  destruct (try_claim_valid self m Hv) as (s' & -> & Hset & Hlen & _).
  simpl. auto.
Qed.

(** The claims on [m] in a run without [release(m)]: all lose while [m]
    is in flight; from a free [m] the first wins and the rest lose. *)
Lemma claims_on_run (m : Z) (ops : list op) :
  forall self,
    valid_market self m ->
    Forall (fun o => 0 <= op_market o) ops ->
    Release m ∉ ops ->
    claims_on m (run self ops).1
    = if in_flight self m then replicate (count_claims m ops) (Claim false)
      else first_wins (count_claims m ops).
Proof.
  induction ops as [|o ops IH]; intros self Hv Hpos Hnorel.
  { simpl. destruct (in_flight self m); reflexivity. }
  apply Forall_cons in Hpos as [Ho Hpos].
  apply not_elem_of_cons in Hnorel as [Hne Hnorel].
  simpl. destruct (step self o) as [r s1] eqn:Hstep.
  destruct (run s1 ops) as [tr final] eqn:Hrun. simpl.
  assert (Htr : tr = (run s1 ops).1) by (rewrite Hrun; reflexivity).
  destruct (decide (op_market o = m)) as [Heq|Hdiff].
  - destruct o as [k|k]; simpl in Heq; subst k; [|congruence].
    destruct (step_claim_same self m Hv) as (Hr & Hset & Hlen).
    rewrite Hstep in Hr, Hset, Hlen. simpl in Hr, Hset, Hlen.
    assert (Hv1 : valid_market s1 m) by (unfold valid_market in *; rewrite Hlen; exact Hv).
    rewrite Z.eqb_refl, Htr, (IH s1 Hv1 Hpos Hnorel), Hset, Hr.
    destruct (in_flight self m); reflexivity.
  - destruct (step_other self o m (proj1 Hv) Ho Hdiff) as [Hkeep Hlen].
    rewrite Hstep in Hkeep, Hlen. simpl in Hkeep, Hlen.
    assert (Hv1 : valid_market s1 m) by (unfold valid_market in *; rewrite Hlen; exact Hv).
    assert (IH' : claims_on m tr
                  = if in_flight self m
                    then replicate (count_claims m ops) (Claim false)
                    else first_wins (count_claims m ops)).
    { rewrite Htr, (IH s1 Hv1 Hpos Hnorel), Hkeep. reflexivity. }
    destruct o as [k|k]; simpl in Hdiff |- *; [|exact IH'].
    destruct (Z.eqb_spec k m); [congruence|exact IH'].
Qed.

(** The bitmask implements the set: on market ids it covers, every call
    observes what the set would answer. *)
Lemma step_refines_set (self : InFlightDedupe) (inflight : gset Z) (o : op) :
  valid_market self (op_market o) ->
  represents self inflight ->
  (step self o).1 = (set_step inflight o).1
  /\ represents (step self o).2 (set_step inflight o).2
  /\ length (bitmask (step self o).2) = length (bitmask self).
Proof.
  intros Hv Hrep. destruct o as [m|m]; simpl in Hv |- *.
  - destruct (try_claim_valid self m Hv) as (s' & -> & Hset & Hlen & Hoth). simpl.
    split; [|split; [|exact Hlen]].
    + rewrite (Hrep m Hv), bool_decide_not. reflexivity.
    + intros k Hk. unfold valid_market in Hk. rewrite Hlen in Hk.
      destruct (decide (k = m)) as [->|Hne].
      * rewrite Hset. symmetry. apply bool_decide_eq_true.
        rewrite elem_of_union, elem_of_singleton. auto.
      * rewrite Hoth by (lia || assumption). rewrite (Hrep k Hk).
        apply bool_decide_ext. rewrite elem_of_union, elem_of_singleton. tauto.
  - destruct (release_valid self m Hv) as (s' & -> & Hclr & Hlen & Hoth). simpl.
    split; [reflexivity|split; [|exact Hlen]].
    intros k Hk. unfold valid_market in Hk. rewrite Hlen in Hk.
    destruct (decide (k = m)) as [->|Hne].
    + rewrite Hclr. symmetry. apply bool_decide_eq_false.
      rewrite elem_of_difference, elem_of_singleton. tauto.
    + rewrite Hoth by (lia || assumption). rewrite (Hrep k Hk).
      apply bool_decide_ext. rewrite elem_of_difference, elem_of_singleton. tauto.
Qed.

Lemma run_refines_set (ops : list op) :
  forall self inflight,
    Forall (fun o => valid_market self (op_market o)) ops ->
    represents self inflight ->
    (run self ops).1 = (set_run inflight ops).1.
Proof.
  induction ops as [|o ops IH]; intros self inflight Hv Hrep; [reflexivity|].
  apply Forall_cons in Hv as [Ho Hv].
  destruct (step_refines_set self inflight o Ho Hrep) as (Hobs & Hrep' & Hlen).
  simpl. destruct (step self o) as [r s1]. destruct (set_step inflight o) as [r' i1].
  simpl in Hobs, Hrep', Hlen. subst r'.
  assert (Hv1 : Forall (fun o => valid_market s1 (op_market o)) ops).
  { eapply Forall_impl; [exact Hv|]. intros x Hx.
    unfold valid_market in *. rewrite Hlen. exact Hx. }
  specialize (IH s1 i1 Hv1 Hrep').
  destruct (run s1 ops) as [tr final]. destruct (set_run i1 ops) as [tr' final'].
  simpl in IH. subst tr'. reflexivity.
Qed.

Lemma init_free (num_markets m : Z) :
  in_flight (InFlightDedupe_init num_markets) m = false.
Proof.
  unfold in_flight, InFlightDedupe_init. simpl.
  destruct (replicate _ 0 !! _) as [w|] eqn:Hw; [|reflexivity].
  apply lookup_replicate in Hw as [-> _]. apply Z.bits_0.
Qed.

Lemma init_valid (m : Z) :
  0 <= m < 512 -> valid_market InFlightDedupe_default m.
Proof. unfold valid_market. simpl. lia. Qed.

Lemma init_represents_empty (num_markets : Z) :
  represents (InFlightDedupe_init num_markets) ∅.
Proof.
  intros k _. rewrite init_free. symmetry.
  apply bool_decide_eq_false. apply not_elem_of_empty.
Qed.

(** The Rust claim on a market below 512: the attempt proceeds exactly when
    the bit was clear, the bit is set afterwards, and a second attempt
    finds the market in flight. *)
Lemma rust_claim_below_512 (words : list Z) (m : Z) :
  length words = 8%nat -> 0 <= m < 512 ->
  exists prev,
    words !! Z.to_nat (m / 64) = Some prev
    /\ rust_claim words m
       = (if Z.testbit prev (m mod 64) then AlreadyInFlight else Proceeds,
          <[Z.to_nat (m / 64) := Z.lor prev (Z.shiftl 1 (m mod 64))]> words)
    /\ (rust_claim (rust_claim words m).2 m).1 = AlreadyInFlight.
Proof.
  intros Hlen Hm.
  assert (Hmask : u64 (Z.shiftl 1 (m mod 64)) = Z.shiftl 1 (m mod 64)).
  { unfold u64. rewrite mask_is_pow2 by apply bit_nonneg.
    apply Z.mod_small. split; [apply Z.pow_nonneg; lia|].
    apply Z.pow_lt_mono_r; [lia | lia |]. apply Z.mod_pos_bound. lia. }
  assert (Hslot : (Z.to_nat (m / 64) < length words)%nat).
  { rewrite Hlen. assert (m / 64 < 8) by (apply Z.div_lt_upper_bound; lia).
    assert (0 <= m / 64) by (apply Z.div_pos; lia). lia. }
  destruct (lookup_lt_is_Some_2 _ _ Hslot) as [prev Hprev].
  assert (Hfirst : rust_claim words m
       = (if Z.testbit prev (m mod 64) then AlreadyInFlight else Proceeds,
          <[Z.to_nat (m / 64) := Z.lor prev (Z.shiftl 1 (m mod 64))]> words)).
  { unfold rust_claim. destruct (Z.ltb_spec m 512); [|lia].
    rewrite Hprev, Hmask, land_mask_zero by apply bit_nonneg.
    rewrite negb_involutive. destruct (Z.testbit prev (m mod 64)); reflexivity. }
  exists prev. split; [exact Hprev|]. split; [exact Hfirst|].
  rewrite Hfirst. simpl. unfold rust_claim. destruct (Z.ltb_spec m 512); [|lia].
  rewrite list_lookup_insert_eq by assumption.
  rewrite Hmask, land_mask_zero by apply bit_nonneg.
  rewrite testbit_set by apply bit_nonneg.
  rewrite Z.eqb_refl, orb_true_r. reflexivity.
Qed.

(** *** C1: at most one claim in flight per market *)

(** C1. On a shared [InFlightDedupe], take any market id [m] the bitmask
    has a bit for and any sequence of [try_claim] and [release] calls (on
    any non-negative ids) that contains no [release(m)].  If [m] is free
    when the sequence starts, the [try_claim(m)] calls in it return [True]
    for the first and [False] for every later one, however many there are
    and whatever is called in between; and the same holds when the
    sequence is run right after a [release(m)], in any state: a release
    makes the market claimable again. *)
Theorem at_most_one_in_flight (self : InFlightDedupe) (m : Z) (ops : list op) :
  valid_market self m ->
  Forall (fun o => 0 <= op_market o) ops ->
  Release m ∉ ops ->
  (in_flight self m = false ->
   claims_on m (run self ops).1 = first_wins (count_claims m ops))
  /\ claims_on m (run self (Release m :: ops)).1 = first_wins (count_claims m ops).
Proof.
  intros Hv Hpos Hnorel. split.
  - intros Hfree. rewrite claims_on_run, Hfree by assumption. reflexivity.
  - destruct (release_valid self m Hv) as (s1 & Hrel & Hclear & Hlen & _).
    simpl. rewrite Hrel.
    destruct (run s1 ops) as [tr final] eqn:Hrun. simpl.
    replace tr with (run s1 ops).1 by (rewrite Hrun; reflexivity).
    rewrite claims_on_run, Hclear; auto.
    unfold valid_market in *. rewrite Hlen. exact Hv.
Qed.

Lemma at_most_one_in_flight_witness :
  claims_on 7
    (run InFlightDedupe_default
       [TryClaim 7; TryClaim 3; TryClaim 7; Release 3; TryClaim 600; TryClaim 7]).1
  = [Claim true; Claim false; Claim false].
Proof.
  refine (proj1 (at_most_one_in_flight InFlightDedupe_default 7
    [TryClaim 7; TryClaim 3; TryClaim 7; Release 3; TryClaim 600; TryClaim 7]
    _ _ _) _).
  - apply init_valid. lia.
  - repeat constructor; simpl; lia.
  - intros Hin. repeat (apply elem_of_cons in Hin as [Hin|Hin]; [discriminate|]).
    inversion Hin.
  - reflexivity.
Defined.

(** *** C9: the bitmask covers market ids 0..511 only *)

(** Market ids are indices from 0 up.  A negative [int] would go through
    Python's negative subscripts and land on the bit of another market:
    [try_claim(-1)] takes the bit of market 511. *)
Remark negative_id_aliases :
  (try_claim InFlightDedupe_default (-1)).1 = Returns true
  /\ in_flight (try_claim InFlightDedupe_default (-1)).2 511 = true.
Proof. split; reflexivity. Qed.


(** C9. The default bitmask has 8 slots of 64 bits.  For a non-negative
    market id, [try_claim] and [release] return exactly when the id is
    below 512; from 512 on both raise [IndexError] and leave the bitmask as
    it was, and the Rust claim skips its check, so that every attempt on
    such a market proceeds: the at-most-one guarantee stops at 511. *)
Theorem dedupe_covers_0_to_511 (self : InFlightDedupe) (m : Z) :
  length (bitmask self) = 8%nat ->
  0 <= m ->
  length (bitmask InFlightDedupe_default) = 8%nat
  /\ (m < 512 ->
      (exists b self', try_claim self m = (Returns b, self'))
      /\ (exists self', release self m = (Returns tt, self')))
  /\ (512 <= m ->
      try_claim self m = (Raises IndexError, self)
      /\ release self m = (Raises IndexError, self)
      /\ forall in_flight_words,
           rust_claim in_flight_words m = (Proceeds, in_flight_words)
           /\ (let '(_, words') := rust_claim in_flight_words m in
               (rust_claim words' m).1) = Proceeds).
Proof.
  intros Hlen Hm. split; [reflexivity|]. split.
  - intros Hlt.
    assert (Hv : valid_market self m) by (unfold valid_market; rewrite Hlen; lia).
    split.
    + destruct (try_claim_valid self m Hv) as (s' & Heq & _). eauto.
    + destruct (release_valid self m Hv) as (s' & Heq & _). eauto.
  - intros Hge.
    assert (Hout : 64 * Z.of_nat (length (bitmask self)) <= m) by (rewrite Hlen; lia).
    split; [apply try_claim_beyond; assumption|].
    split; [apply release_beyond; assumption|].
    intros words.
    assert (Hr : rust_claim words m = (Proceeds, words)).
    { unfold rust_claim. destruct (Z.ltb_spec m 512); [lia|reflexivity]. }
    split; [exact Hr|]. rewrite Hr, Hr. reflexivity.
Qed.

Lemma dedupe_covers_0_to_511_witness :
  try_claim InFlightDedupe_default 512 = (Raises IndexError, InFlightDedupe_default)
  /\ release InFlightDedupe_default 512 = (Raises IndexError, InFlightDedupe_default).
Proof.
  destruct (dedupe_covers_0_to_511 InFlightDedupe_default 512) as (_ & _ & Hbeyond).
  - reflexivity.
  - lia.
  - destruct Hbeyond as (Hc & Hr & _); [lia|]. split; assumption.
Defined.

(** *** C3 and C10: the fee table and the fee function *)

Lemma fee_points_ok : forallb fee_point_ok (seqZ 0 101) = true.
Proof. vm_compute. reflexivity. Qed.

(** C3. For every integer price [p] from 0 to 100 the entry of
    [KALSHI_FEE_TABLE] is the ceiling of [7 * p * (100 - p) / 10000], and it
    is what [kalshi_fee_cents p] returns: table and function agree on all
    101 price points (the table has exactly 101 entries). *)
Theorem fee_table_is_closed_form (p : Z) :
  0 <= p <= 100 ->
  length KALSHI_FEE_TABLE = 101%nat
  /\ KALSHI_FEE_TABLE !! Z.to_nat p = Some (fee_closed_form p)
  /\ KALSHI_FEE_TABLE !! Z.to_nat p = Some (kalshi_fee_cents p).
Proof.
  intros Hp. split; [reflexivity|].
  pose proof fee_points_ok as Hall.
  rewrite forallb_forall in Hall.
  assert (Hin : In p (seqZ 0 101)).
  { apply list_elem_of_In, elem_of_seqZ. lia. }
  specialize (Hall p Hin). unfold fee_point_ok in Hall.
  apply andb_true_iff in Hall as [Htab Hfun].
  apply bool_decide_eq_true in Htab. apply Z.eqb_eq in Hfun.
  split; [exact Htab | rewrite Hfun; exact Htab].
Qed.

Lemma fee_table_is_closed_form_witness :
  KALSHI_FEE_TABLE !! Z.to_nat 50 = Some (fee_closed_form 50)
  /\ KALSHI_FEE_TABLE !! Z.to_nat 50 = Some (kalshi_fee_cents 50).
Proof.
  apply (fee_table_is_closed_form 50). lia.
Defined.

(** The entries the Rust excerpt prints differ from the closed form at
    prices 1 to 9 and 15 to 17; the excerpt elides 81 of its 101 entries
    and is not the table the Python function is checked against. *)
Remark rust_excerpt_differs :
  filter (fun p => RUST_FEE_TABLE_EXCERPT !! Z.to_nat p <> Some (fee_closed_form p))
         (seqZ 0 20)
  = [1; 2; 3; 4; 5; 6; 7; 8; 9; 15; 16; 17].
Proof. vm_compute. reflexivity. Qed.

Lemma fee_in_range (price_cents : Z) :
  1 <= price_cents <= 100 -> 0 <= kalshi_fee_cents price_cents <= 2.
Proof.
  intros Hp. unfold kalshi_fee_cents.
  destruct (Z.ltb_spec 100 price_cents); [lia|].
  destruct (Z.eqb_spec price_cents 0); [lia|]. simpl.
  assert (Hlo : 0 <= price_cents * (100 - price_cents)) by nia.
  assert (Hhi : price_cents * (100 - price_cents) <= 2500).
  { pose proof (Z.square_nonneg (price_cents - 50)). nia. }
  split.
  - apply Z.div_pos; lia.
  - assert ((7 * price_cents * (100 - price_cents) + 9999) / 10000 < 3); [|lia].
    apply Z.div_lt_upper_bound; lia.
Qed.

(** C10. [kalshi_fee_cents] returns a fee for every non-negative integer
    price, never an error: the fee is between 0 and 2 cents, and it is 0
    when the price is 0 and for every price above 100. *)
Theorem kalshi_fee_total_zero_outside (price_cents : Z) :
  0 <= price_cents ->
  0 <= kalshi_fee_cents price_cents <= 2
  /\ (price_cents = 0 \/ 100 < price_cents -> kalshi_fee_cents price_cents = 0).
Proof.
  intros Hp.
  assert (Hzero : price_cents = 0 \/ 100 < price_cents ->
                  kalshi_fee_cents price_cents = 0).
  { intros Hout. unfold kalshi_fee_cents.
    destruct (Z.ltb_spec 100 price_cents); [reflexivity|].
    destruct (Z.eqb_spec price_cents 0); [reflexivity|lia]. }
  split; [|exact Hzero].
  destruct (Z.eq_dec price_cents 0) as [H0|H0]; [rewrite Hzero; lia|].
  destruct (Z.lt_ge_cases 100 price_cents); [rewrite Hzero; lia|].
  apply fee_in_range. lia.
Qed.

Lemma kalshi_fee_total_zero_outside_witness :
  kalshi_fee_cents 0 = 0 /\ kalshi_fee_cents 101 = 0 /\ kalshi_fee_cents 100000 = 0.
Proof.
  split; [|split].
  - apply (kalshi_fee_total_zero_outside 0); lia.
  - apply (kalshi_fee_total_zero_outside 101); lia.
  - apply (kalshi_fee_total_zero_outside 100000); lia.
Defined.

(** *** C4, C5, C6: the circuit breaker *)

Section Breaker.
Variable trip : CircuitBreaker -> string -> CircuitBreaker.

Lemma can_execute_halted (self : CircuitBreaker) (m c : Z) :
  halted self = true -> can_execute trip self m c = (false, self).
Proof. intros Hh. unfold can_execute. rewrite Hh. reflexivity. Qed.

Lemma can_execute_all_halted (cands : list (Z * Z)) :
  forall self,
    halted self = true ->
    Forall (fun b => b = false) (can_execute_all trip self cands).1
    /\ (can_execute_all trip self cands).2 = self.
Proof.
  induction cands as [|[m c] rest IH]; intros self Hh; simpl.
  - split; [constructor | reflexivity].
  - rewrite can_execute_halted by assumption.
    destruct (IH self Hh) as [Hall Hsame].
    destruct (can_execute_all trip self rest) as [bs final]. simpl in *.
    split; [constructor; auto | assumption].
Qed.

(** What [can_execute] reads: the answer and the next state are the same
    for two breakers that differ in the error counter only. *)
Lemma can_execute_with_errors (self : CircuitBreaker) (n m c : Z) :
  (can_execute trip (with_errors self n) m c).1 = (can_execute trip self m c).1.
Proof.
  unfold can_execute, position_of, total_position, daily_floor_cents. simpl.
  repeat (match goal with |- context [if ?b then _ else _] => destruct b end;
          simpl; try reflexivity).
Qed.

(** The one thing the daily-loss property needs of [trip]. *)
Hypothesis trip_halts : forall self reason, halted (trip self reason) = true.

(** While the daily-loss test holds a check never passes; it leaves the
    breaker with the test holding or Halted, and Halted when it got past
    the position caps. *)
Lemma can_execute_below_floor (self : CircuitBreaker) (m c : Z) :
  below_floor self ->
  (can_execute trip self m c).1 = false
  /\ (below_floor (can_execute trip self m c).2
      \/ halted (can_execute trip self m c).2 = true)
  /\ (within_caps self m c = true -> halted (can_execute trip self m c).2 = true).
Proof.
  intros Hlow. unfold can_execute, within_caps.
  destruct (halted self) eqn:Hh; [simpl; auto|].
  destruct (_ <? position_of self m + c); [simpl; split; [|split]; auto; discriminate|].
  destruct (_ <? total_position self + c); [simpl; split; [|split]; auto; discriminate|].
  unfold below_floor in Hlow. rewrite Hlow. simpl. auto.
Qed.

Lemma can_execute_all_below_floor (cands : list (Z * Z)) :
  forall self,
    below_floor self ->
    Forall (fun b => b = false) (can_execute_all trip self cands).1.
Proof.
  induction cands as [|[m c] rest IH]; intros self Hlow; simpl; [constructor|].
  destruct (can_execute_below_floor self m c Hlow) as (Hres & Hnext & _).
  destruct (can_execute trip self m c) as [b s1]. simpl in Hres, Hnext.
  assert (Hrest : Forall (fun b => b = false) (can_execute_all trip s1 rest).1).
  { destruct Hnext as [Hlow'|Hh]; [apply IH; assumption|].
    apply can_execute_all_halted; assumption. }
  destruct (can_execute_all trip s1 rest) as [bs final]. simpl in *.
  constructor; assumption.
Qed.

(** A check that a position cap refuses writes nothing: the breaker is not
    tripped, whatever the P&L. *)
Lemma can_execute_cap_refused (self : CircuitBreaker) (m c : Z) :
  halted self = false -> within_caps self m c = false ->
  can_execute trip self m c = (false, self).
Proof.
  intros Hh Hcaps. unfold can_execute, within_caps in *. rewrite Hh.
  destruct (_ <? position_of self m + c); [reflexivity|].
  destruct (_ <? total_position self + c); [reflexivity|discriminate].
Qed.

End Breaker.

(** The exact comparison is monotone in the integer. *)
Lemma Z_ltb_float_mono (z z' : Z) (f : float) :
  z' <= z -> Z_ltb_float z f = true -> Z_ltb_float z' f = true.
Proof.
  unfold Z_ltb_float. intros Hle.
  destruct (Prim2SF f) as [sg|sg| |sg m e]; try (intros; assumption).
  - rewrite !Z.ltb_lt. lia.
  - destruct (0 <=? e).
    + rewrite !Z.ltb_lt. lia.
    + rewrite !Z.ltb_lt. intros Hz.
      assert (0 <= 2 ^ (- e)) by (apply Z.pow_nonneg; lia). nia.
Qed.

Lemma floor_points_ok : forallb floor_point_ok (seqZ 0 1001) = true.
Proof. vm_compute. reflexivity. Qed.

(** For a limit of a whole number of dollars, up to 1000, the daily-loss
    test of [can_execute] is the comparison with [-100] times the limit:
    the float product is exact there. *)
Lemma whole_dollar_floor (self : CircuitBreaker) (d : Z) :
  0 <= d <= 1000 ->
  max_daily_loss self = whole_dollars d ->
  Z_ltb_float (daily_pnl_cents self) (daily_floor_cents self)
  = (daily_pnl_cents self <? - (100 * d)).
Proof.
  intros Hd Hlimit. unfold daily_floor_cents. rewrite Hlimit.
  pose proof floor_points_ok as Hall. rewrite forallb_forall in Hall.
  assert (Hin : In d (seqZ 0 1001)) by (apply list_elem_of_In, elem_of_seqZ; lia).
  specialize (Hall d Hin). unfold floor_point_ok in Hall.
  apply andb_true_iff in Hall as [Hunder Hat]. apply negb_true_iff in Hat.
  destruct (Z.ltb_spec (daily_pnl_cents self) (- (100 * d))) as [Hlt|Hge].
  - apply (Z_ltb_float_mono (- (100 * d) - 1)); [lia | exact Hunder].
  - destruct (Z_ltb_float (daily_pnl_cents self) _) eqn:Htest; [|reflexivity].
    rewrite (Z_ltb_float_mono _ (- (100 * d)) _ Hge Htest) in Hat. discriminate.
Qed.

(** C4, as stated, fails on the breaker: the breach is not latched.  With
    the default limits and the P&L at -5001, under the floor of -5000, a
    candidate of 50001 contracts is refused by the position cap and the
    breaker is not Halted; when the P&L then stands at -4999, a candidate
    of 10 contracts is approved, with no re-arm in between. *)
Lemma floor_breach_not_latched :
  let breached := with_pnl CircuitBreaker_init (-5001) in
  daily_pnl_cents breached < -5000
  /\ below_floor breached
  /\ can_execute trip breached 1 50001 = (false, breached)
  /\ halted (can_execute trip breached 1 50001).2 = false
  /\ (can_execute trip
        (with_pnl (can_execute trip breached 1 50001).2 (-4999)) 1 10).1 = true.
Proof. vm_compute. repeat split; reflexivity. Qed.

(** C4, amended.  Let [trip] make the breaker Halted.  While the running
    daily P&L is strictly under the floor [-max_daily_loss * 100] (the
    comparison of [can_execute]; for a limit of [d] whole dollars, up to
    1000 and 50 by default, it is [P&L < -100 * d]: -5001 against -5000),
    every [can_execute] of any sequence of candidates returns [False].  A
    check that gets past the position caps trips the breaker to Halted,
    and from then on every check returns [False] whatever the P&L becomes,
    there being no re-arm.  A check that a position cap refuses returns
    [False] and does not trip the breaker; and at the floor or above
    nothing trips. *)
Theorem daily_loss_floor_halts
    (trip : CircuitBreaker -> string -> CircuitBreaker)
    (self : CircuitBreaker) (cands : list (Z * Z)) :
  (forall s reason, halted (trip s reason) = true) ->
  (forall d,
     0 <= d <= 1000 -> max_daily_loss self = whole_dollars d ->
     (below_floor self <-> daily_pnl_cents self < - (100 * d)))
  /\ (below_floor self ->
      Forall (fun b => b = false) (can_execute_all trip self cands).1
      /\ (forall m c,
            within_caps self m c = true ->
            halted (can_execute trip self m c).2 = true
            /\ forall pnl later,
                 Forall (fun b => b = false)
                   (can_execute_all trip
                      (with_pnl (can_execute trip self m c).2 pnl) later).1))
  /\ (forall m c,
        halted self = false -> within_caps self m c = false ->
        can_execute trip self m c = (false, self))
  /\ (~ below_floor self ->
      forall m c,
        halted self = false -> within_caps self m c = true ->
        can_execute trip self m c = (true, self)).
Proof.
  intros Htrip. split; [|split; [|split]].
  - intros d Hd Hlimit. unfold below_floor.
    rewrite (whole_dollar_floor self d Hd Hlimit). apply Z.ltb_lt.
  - intros Hlow.
    split; [apply can_execute_all_below_floor; assumption|].
    intros m c Hcaps.
    destruct (can_execute_below_floor trip Htrip self m c Hlow) as (_ & _ & Hhalt).
    specialize (Hhalt Hcaps). split; [exact Hhalt|].
    intros pnl later. apply can_execute_all_halted. exact Hhalt.
  - intros m c. apply can_execute_cap_refused.
  - intros Hnot m c Hh Hcaps. unfold can_execute, within_caps, below_floor in *.
    rewrite Hh.
    destruct (_ <? position_of self m + c); [discriminate|].
    destruct (_ <? total_position self + c); [discriminate|].
    destruct (Z_ltb_float _ _); [contradiction Hnot; reflexivity | reflexivity].
Qed.

Lemma daily_loss_floor_halts_witness :
  (below_floor (with_pnl CircuitBreaker_init (-5001)) <-> -5001 < - (100 * 50))
  /\ (can_execute_all trip (with_pnl CircuitBreaker_init (-5001)) [(1, 10); (2, 1)]).1
     = [false; false]
  /\ halted (can_execute trip (with_pnl CircuitBreaker_init (-5001)) 1 10).2 = true.
Proof.
  destruct (daily_loss_floor_halts trip (with_pnl CircuitBreaker_init (-5001))
              [(1, 10); (2, 1)] (fun _ _ => eq_refl))
    as (Hfloor & Hunder & _).
  assert (Hpin : below_floor (with_pnl CircuitBreaker_init (-5001))
                 <-> -5001 < - (100 * 50))
    by (apply (Hfloor 50); [lia | reflexivity]).
  split; [exact Hpin|].
  destruct Hunder as [_ Htrip]; [apply Hpin; lia|].
  split; [reflexivity|]. apply (Htrip 1 10). reflexivity.
Defined.

(** C5. A Halted breaker refuses every candidate: [can_execute] returns
    [False] for every market id and every contract count, and the breaker
    is left as it was, Halted. *)
Theorem halted_refuses_all (trip : CircuitBreaker -> string -> CircuitBreaker)
    (self : CircuitBreaker) (market_id contracts : Z) :
  halted self = true ->
  (can_execute trip self market_id contracts).1 = false
  /\ (can_execute trip self market_id contracts).2 = self.
Proof.
  intros Hh. rewrite can_execute_halted by assumption. simpl. auto.
Qed.

Lemma halted_refuses_all_witness :
  (can_execute trip (trip CircuitBreaker_init "manual halt") 42 1).1 = false.
Proof.
  apply (halted_refuses_all trip (trip CircuitBreaker_init "manual halt") 42 1).
  reflexivity.
Defined.

(** C6. [can_execute] does not look at the consecutive-error counter: a
    default breaker whose counter holds any value, the threshold
    [max_consecutive_errors = 5] included, lets a one-contract candidate
    through and stays Armed, whatever [trip] does. *)
Theorem can_execute_ignores_error_count
    (trip : CircuitBreaker -> string -> CircuitBreaker) (n market_id : Z) :
  can_execute trip (with_errors CircuitBreaker_init n) market_id 1
  = (true, with_errors CircuitBreaker_init n).
Proof.
  unfold can_execute, position_of, total_position. simpl.
  rewrite lookup_empty, map_fold_empty. reflexivity.
Qed.

(** *** C2: what the detector decides on *)

Lemma SFltb_irrefl (x : spec_float) : SFltb x x = false.
Proof.
  unfold SFltb, SFcompare.
  destruct x as [sg|sg| |sg m e]; try (destruct sg; reflexivity).
  - reflexivity.
  - destruct sg; rewrite Z.compare_refl; fold (Pos.compare m m);
      rewrite Pos.compare_refl; reflexivity.
Qed.

(** No double is below itself. *)
Lemma float_ltb_irrefl (x : float) : (x <? x)%float = false.
Proof. rewrite ltb_spec. apply SFltb_irrefl. Qed.

Lemma spread_gate_passes_iff (profit_cents : Z) :
  spread_gate profit_cents = Some profit_cents <-> MIN_ARB_SPREAD <= profit_cents.
Proof.
  unfold spread_gate.
  destruct (Z.ltb_spec profit_cents MIN_ARB_SPREAD); split; intros; try lia;
    try discriminate; reflexivity.
Qed.

(** C2, as stated, fails on the detector.  With two fee-free legs of 25 and
    50 cents, 80 contracts on each and a floor of 25 cents, the net profit
    equals the floor and the size is positive, yet the detector returns
    [None]: its comparison is strict (all the amounts are exact in binary).
    And where the rule says emit (25 and 25 cents, net 46 after both Kalshi
    fees), the buy branch raises [NameError] on [position_size] instead of
    returning an opportunity. *)
Lemma detector_differs_from_spec_rule :
  (detect_single_condition_arbitrage
     {| min_profit := 0.25; max_capital := 1000; position_size := None |}
     0.25 0.5 80 = Value None
   /\ spec_emits 25 (fun _ => 0) (fun _ => 0) 25 50 80 80)
  /\ (detect_single_condition_arbitrage
        {| min_profit := 0.25; max_capital := 1000; position_size := None |}
        0.25 0.25 80 = NameError "position_size"
      /\ spec_emits 25 kalshi_fee_cents kalshi_fee_cents 25 25 80 80).
Proof.
  split; (split; [vm_compute; reflexivity|]);
    unfold spec_emits, netProfit; vm_compute; split;
      first [discriminate | reflexivity].
Qed.

(** C2, amended.  The detector decides on the price sum alone, in double
    precision.  It takes the buy branch exactly when
    [yes_price + no_price < 1.00 - min_profit], strictly (not when the two
    sides are equal); failing that it returns a sell-both signal exactly
    when [yes_price + no_price > 1.00 + min_profit], and [None] otherwise.
    No venue fee and no size enters the decision: the liquidity changes
    neither.  On the cross-platform path a candidate passes exactly when
    [profit_cents >= MIN_ARB_SPREAD], a floor of 15 cents, not zero.
    (What the buy branch then returns is left open here.) *)
Theorem detector_emits_on_gross_margin (g : DetectorGlobals)
    (yes_price no_price liquidity : float) (profit_cents : Z) :
  let r := detect_single_condition_arbitrage g yes_price no_price liquidity in
  let buy := (yes_price + no_price <? 1.00 - min_profit g)%float in
  let sell := (1.00 + min_profit g <? yes_price + no_price)%float in
  takes_buy_branch r = buy
  /\ ((yes_price + no_price)%float = (1.00 - min_profit g)%float ->
      takes_buy_branch r = false)
  /\ (r = Value (Some sell_both) <-> buy = false /\ sell = true)
  /\ (r = Value None <-> buy = false /\ sell = false)
  /\ (forall other_liquidity,
        let r' := detect_single_condition_arbitrage g yes_price no_price
                    other_liquidity in
        takes_buy_branch r' = takes_buy_branch r
        /\ (r' = Value (Some sell_both) <-> r = Value (Some sell_both))
        /\ (r' = Value None <-> r = Value None))
  /\ (spread_gate profit_cents = Some profit_cents <-> MIN_ARB_SPREAD <= profit_cents)
  /\ 0 < MIN_ARB_SPREAD.
Proof.
  intros r buy sell.
  assert (Hbuy : forall l,
            takes_buy_branch
              (detect_single_condition_arbitrage g yes_price no_price l) = buy).
  { intros l. unfold detect_single_condition_arbitrage. fold buy sell.
    destruct buy; [destruct (position_size g); reflexivity|].
    destruct sell; reflexivity. }
  assert (Hsell : forall l,
            detect_single_condition_arbitrage g yes_price no_price l
            = Value (Some sell_both) <-> buy = false /\ sell = true).
  { intros l. unfold detect_single_condition_arbitrage. fold buy sell.
    destruct buy.
    - destruct (position_size g);
        (split; [intros H; discriminate H | intros [H _]; discriminate H]).
    - destruct sell; split; try (intros H; discriminate H); auto;
        intros [_ H]; discriminate H. }
  assert (Hnone : forall l,
            detect_single_condition_arbitrage g yes_price no_price l
            = Value None <-> buy = false /\ sell = false).
  { intros l. unfold detect_single_condition_arbitrage. fold buy sell.
    destruct buy.
    - destruct (position_size g);
        (split; [intros H; discriminate H | intros [H _]; discriminate H]).
    - destruct sell; split; try (intros H; discriminate H); auto;
        intros [_ H]; discriminate H. }
  split; [apply Hbuy|]. split.
  - intros Heq. subst r. rewrite Hbuy. subst buy. rewrite Heq.
    apply float_ltb_irrefl.
  - split; [apply Hsell|]. split; [apply Hnone|]. split.
    + intros l r'. subst r r'. rewrite !Hbuy, !Hsell, !Hnone. tauto.
    + split; [apply spread_gate_passes_iff | reflexivity].
Qed.

(** *** C7: reconciling a partial fill *)

Lemma ledger_position_recordFill (ledger : gmap Z Position)
    (m : Z) (venue : Venue) (side : Side) (price size : Z) :
  ledger_position (recordFill m venue side price size ledger) m
  = match side with
    | YES => {| yes_contracts := yes_contracts (ledger_position ledger m) + size;
                no_contracts := no_contracts (ledger_position ledger m);
                cost_basis := cost_basis (ledger_position ledger m) + price * size |}
    | NO => {| yes_contracts := yes_contracts (ledger_position ledger m);
               no_contracts := no_contracts (ledger_position ledger m) + size;
               cost_basis := cost_basis (ledger_position ledger m) + price * size |}
    end.
Proof.
  unfold recordFill, ledger_position at 1. rewrite lookup_insert_eq.
  destruct side; reflexivity.
Qed.

Lemma record_leg_other (ledger : gmap Z Position)
    (m k : Z) (venue : Venue) (side : Side) (price : Z) (st : OrderStatus) :
  k <> m -> record_leg m venue side price st ledger !! k = ledger !! k.
Proof.
  intros Hne. unfold record_leg, recordFill.
  destruct (0 <? filled_size st); [|reflexivity].
  apply lookup_insert_ne. congruence.
Qed.

(** A leg that filled [n > 0] contracts, and a leg that filled nothing. *)
Lemma record_leg_filled (ledger : gmap Z Position)
    (m : Z) (venue : Venue) (side : Side) (price n : Z) (st : OrderStatus) :
  0 < n -> st = Filled n \/ st = PartiallyFilled n ->
  record_leg m venue side price st ledger = recordFill m venue side price n ledger.
Proof.
  intros Hn [->| ->]; unfold record_leg; simpl;
    (destruct (Z.ltb_spec 0 n); [reflexivity | lia]).
Qed.

Lemma record_leg_unfilled (ledger : gmap Z Position)
    (m : Z) (venue : Venue) (side : Side) (price : Z) (st : OrderStatus) :
  st = Pending \/ st = Cancelled \/ st = Rejected ->
  record_leg m venue side price st ledger = ledger.
Proof. intros [->|[->| ->]]; reflexivity. Qed.

Section Reconciliation.
Variables (int_min int_max : Z) (mode : overflow_mode).

Lemma arith_fits (x : Z) :
  fits int_min int_max x -> arith int_min int_max mode x = Some x.
Proof.
  unfold fits, arith. intros [Hlo Hhi].
  destruct (Z.leb_spec int_min x); [|lia].
  destruct (Z.leb_spec x int_max); [|lia]. reflexivity.
Qed.

(** Where nothing leaves the integer type, reconciliation returns, in a
    debug and in a release build alike, what the three lines say. *)
Lemma reconcile_fits (yes_filled no_filled yes_cost no_cost : Z) :
  fits int_min int_max (Z.min yes_filled no_filled * 100) ->
  fits int_min int_max (yes_cost + no_cost) ->
  fits int_min int_max (Z.min yes_filled no_filled * 100 - (yes_cost + no_cost)) ->
  reconcile int_min int_max mode yes_filled no_filled yes_cost no_cost
  = Some {| matched := Z.min yes_filled no_filled;
            success := 0 <? Z.min yes_filled no_filled;
            actual_profit :=
              Z.min yes_filled no_filled * 100 - (yes_cost + no_cost) |}.
Proof.
  intros Hg Hc Hp. unfold reconcile.
  rewrite (arith_fits _ Hg). simpl.
  rewrite (arith_fits _ Hc). simpl.
  rewrite (arith_fits _ Hp). reflexivity.
Qed.

(** C7. Where the amounts stay within the integer type, reconciliation
    computes [matched = min(yes_filled, no_filled)] and
    [actual_profit = matched * 100 - (yes_cost + no_cost)].  On a partial
    fill, one leg filling [n] contracts at [price] and the other timing
    out (still Pending), being Cancelled or being Rejected, nothing is
    matched, the profit is minus the cost of the filled leg, and the
    Ledger holds the filled leg's [n] contracts and cost on its side and
    nothing new on the other side: no phantom position for the unfilled
    leg; other markets are untouched.  The same with the sides exchanged. *)
Theorem partial_fill_reconciliation (ledger : gmap Z Position)
    (marketId price other_price n : Z) (filled_leg unfilled_leg : OrderStatus) :
  0 < n ->
  filled_leg = Filled n \/ filled_leg = PartiallyFilled n ->
  unfilled_leg = Pending \/ unfilled_leg = Cancelled \/ unfilled_leg = Rejected ->
  fits int_min int_max (price * n) ->
  fits int_min int_max (- (price * n)) ->
  let before := ledger_position ledger marketId in
  (forall yes_filled no_filled yes_cost no_cost,
     fits int_min int_max (Z.min yes_filled no_filled * 100) ->
     fits int_min int_max (yes_cost + no_cost) ->
     fits int_min int_max (Z.min yes_filled no_filled * 100 - (yes_cost + no_cost)) ->
     reconcile int_min int_max mode yes_filled no_filled yes_cost no_cost
     = Some {| matched := Z.min yes_filled no_filled;
               success := 0 <? Z.min yes_filled no_filled;
               actual_profit :=
                 Z.min yes_filled no_filled * 100 - (yes_cost + no_cost) |})
  /\ (let settled := settle_legs int_min int_max mode marketId price other_price
                       filled_leg unfilled_leg ledger in
      settled.1 = Some {| matched := 0; success := false;
                          actual_profit := - (price * n) |}
      /\ ledger_position settled.2 marketId
         = {| yes_contracts := yes_contracts before + n;
              no_contracts := no_contracts before;
              cost_basis := cost_basis before + price * n |}
      /\ (forall k, k <> marketId -> settled.2 !! k = ledger !! k))
  /\ (let settled := settle_legs int_min int_max mode marketId other_price price
                       unfilled_leg filled_leg ledger in
      settled.1 = Some {| matched := 0; success := false;
                          actual_profit := - (price * n) |}
      /\ ledger_position settled.2 marketId
         = {| yes_contracts := yes_contracts before;
              no_contracts := no_contracts before + n;
              cost_basis := cost_basis before + price * n |}
      /\ (forall k, k <> marketId -> settled.2 !! k = ledger !! k)).
Proof.
  intros Hn Hfilled Hunfilled Hcost Hloss before. subst before.
  assert (Hfs : filled_size filled_leg = n) by (destruct Hfilled as [->| ->]; reflexivity).
  assert (Hus : filled_size unfilled_leg = 0)
    by (destruct Hunfilled as [->|[->| ->]]; reflexivity).
  assert (Hzero : fits int_min int_max 0) by (unfold fits in *; lia).
  split; [intros; apply reconcile_fits; assumption|].
  unfold settle_legs. rewrite Hfs, Hus. simpl. split.
  - split; [|split].
    + rewrite reconcile_fits.
      * f_equal. replace (Z.min n 0) with 0 by lia. simpl. f_equal. lia.
      * replace (Z.min n 0) with 0 by lia. exact Hzero.
      * replace (price * n + other_price * 0) with (price * n) by lia. exact Hcost.
      * replace (Z.min n 0 * 100 - (price * n + other_price * 0))
          with (- (price * n)) by lia. exact Hloss.
    + rewrite (record_leg_unfilled _ _ _ _ _ unfilled_leg Hunfilled).
      rewrite (record_leg_filled _ _ _ _ _ n filled_leg Hn Hfilled).
      apply ledger_position_recordFill.
    + intros k Hk. rewrite !record_leg_other by assumption. reflexivity.
  - split; [|split].
    + rewrite reconcile_fits.
      * f_equal. replace (Z.min 0 n) with 0 by lia. simpl. f_equal. lia.
      * replace (Z.min 0 n) with 0 by lia. exact Hzero.
      * replace (other_price * 0 + price * n) with (price * n) by lia. exact Hcost.
      * replace (Z.min 0 n * 100 - (other_price * 0 + price * n))
          with (- (price * n)) by lia. exact Hloss.
    + rewrite (record_leg_filled _ _ _ _ _ n filled_leg Hn Hfilled).
      rewrite (record_leg_unfilled _ _ _ _ _ unfilled_leg Hunfilled).
      apply ledger_position_recordFill.
    + intros k Hk. rewrite !record_leg_other by assumption. reflexivity.
Qed.

End Reconciliation.

(** Leg A fills 80 at 40 cents, leg B times out unfilled; 64-bit signed
    amounts, debug build. *)
Lemma partial_fill_reconciliation_witness :
  let settled := settle_legs (- 2 ^ 63) (2 ^ 63 - 1) PanicOnOverflow
                   7 40 55 (Filled 80) Pending ∅ in
  settled.1 = Some {| matched := 0; success := false; actual_profit := - (40 * 80) |}
  /\ ledger_position settled.2 7
     = {| yes_contracts := 0 + 80; no_contracts := 0; cost_basis := 0 + 40 * 80 |}.
Proof.
  destruct (partial_fill_reconciliation (- 2 ^ 63) (2 ^ 63 - 1) PanicOnOverflow
              ∅ 7 40 55 80 (Filled 80) Pending)
    as (_ & (Hrec & Hpos & _) & _).
  - lia.
  - left. reflexivity.
  - left. reflexivity.
  - unfold fits. lia.
  - unfold fits. lia.
  - split; [exact Hrec | exact Hpos].
Defined.

(** *** C8: the store drops stale snapshots *)

Lemma update_accepted (venue : Venue) (marketId : Z) (u : OrderbookSnapshot)
    (store : OrderbookStore) :
  accepts venue marketId u store = true ->
  update venue marketId u store
  = {| snapshots := <[venue_key venue marketId := u]> (snapshots store);
       stale_dropped := stale_dropped store |}.
Proof.
  unfold accepts, update.
  destruct (snapshots store !! venue_key venue marketId) as [c|]; [|reflexivity].
  intros ->. reflexivity.
Qed.

Lemma update_discarded (venue : Venue) (marketId : Z) (u : OrderbookSnapshot)
    (store : OrderbookStore) :
  accepts venue marketId u store = false ->
  update venue marketId u store
  = {| snapshots := snapshots store; stale_dropped := S (stale_dropped store) |}.
Proof.
  unfold accepts, update.
  destruct (snapshots store !! venue_key venue marketId) as [c|]; [|discriminate].
  intros ->. reflexivity.
Qed.

(** After any update the stored version is at least the incoming one. *)
Lemma update_current_version (venue : Venue) (marketId : Z) (u : OrderbookSnapshot)
    (store : OrderbookStore) :
  exists c,
    snapshots (update venue marketId u store) !! venue_key venue marketId = Some c
    /\ version u <= version c
    /\ (accepts venue marketId u store = true -> c = u).
Proof.
  destruct (accepts venue marketId u store) eqn:Hacc.
  - rewrite update_accepted by assumption. simpl.
    exists u. rewrite lookup_insert_eq. split; [reflexivity|]. split; [lia|auto].
  - rewrite update_discarded by assumption. simpl.
    unfold accepts in Hacc.
    destruct (snapshots store !! venue_key venue marketId) as [c|]; [|discriminate].
    exists c. apply Z.ltb_ge in Hacc.
    split; [reflexivity|]. split; [lia|discriminate].
Qed.

(** C8. For updates [u1] then [u2] on the same venue and market with
    [u2.version <= u1.version], applying [u2] after [u1] leaves the
    snapshots exactly as [u1] left them (and the stored snapshot of the
    market is [u1] whenever [u1] was itself accepted); [u2] is only
    counted in the stale metric, and [update] has no error result.  An
    update is accepted only when its version is strictly greater than the
    current one. *)
Theorem store_idempotent_to_staleness (store : OrderbookStore)
    (venue : Venue) (marketId : Z) (u1 u2 : OrderbookSnapshot) :
  version u2 <= version u1 ->
  let after1 := update venue marketId u1 store in
  let after2 := update venue marketId u2 after1 in
  snapshots after2 = snapshots after1
  /\ stale_dropped after2 = S (stale_dropped after1)
  /\ (accepts venue marketId u1 store = true ->
      snapshots after2 !! venue_key venue marketId = Some u1)
  /\ (forall current u,
        snapshots store !! venue_key venue marketId = Some current ->
        (accepts venue marketId u store = true <-> version current < version u)
        /\ (version u <= version current ->
            snapshots (update venue marketId u store) = snapshots store)).
Proof.
  intros Hstale after1 after2. subst after1 after2.
  destruct (update_current_version venue marketId u1 store) as (c & Hc & Hver & Hacc).
  assert (Hrej : accepts venue marketId u2 (update venue marketId u1 store) = false).
  { unfold accepts. rewrite Hc. apply Z.ltb_ge. lia. }
  rewrite (update_discarded _ _ u2) by assumption. simpl.
  split; [reflexivity|]. split; [reflexivity|]. split.
  - intros Ha. rewrite Hc. f_equal. auto.
  - intros current u Hcur. split.
    + unfold accepts. rewrite Hcur. apply Z.ltb_lt.
    + intros Hle. rewrite update_discarded; [reflexivity|].
      unfold accepts. rewrite Hcur. apply Z.ltb_ge. lia.
Qed.

Lemma store_idempotent_to_staleness_witness :
  let u1 := {| yes_ask := 45; no_ask := 56; yes_size := 100; no_size := 80; version := 7 |} in
  let u2 := {| yes_ask := 44; no_ask := 57; yes_size := 10; no_size := 10; version := 7 |} in
  snapshots (update VenueA 3 u2 (update VenueA 3 u1 empty_store))
  = snapshots (update VenueA 3 u1 empty_store)
  /\ snapshots (update VenueA 3 u2 (update VenueA 3 u1 empty_store))
       !! venue_key VenueA 3 = Some u1.
Proof.
  intros u1 u2.
  destruct (store_idempotent_to_staleness empty_store VenueA 3 u1 u2)
    as (Hsame & _ & Hu1 & _); [simpl; lia|].
  split; [exact Hsame | apply Hu1; reflexivity].
Defined.

(** ** Part III. Further properties of the same code *)

(** *** Mask words, exactly *)

Lemma set_bit_already_set (w b : Z) :
  0 <= b -> Z.testbit w b = true -> Z.lor w (Z.shiftl 1 b) = w.
Proof.
  intros Hb Hbit. apply Z.bits_inj'. intros n Hn.
  rewrite testbit_set by assumption.
  destruct (Z.eqb_spec b n) as [->|_]; [rewrite Hbit; reflexivity | apply orb_false_r].
Qed.

Lemma clear_bit_already_clear (w b : Z) :
  0 <= b -> Z.testbit w b = false -> Z.land w (Z.lnot (Z.shiftl 1 b)) = w.
Proof.
  intros Hb Hbit. apply Z.bits_inj'. intros n Hn.
  rewrite testbit_clear by assumption.
  destruct (Z.eqb_spec b n) as [->|_]; [rewrite Hbit; reflexivity | apply andb_true_r].
Qed.

Lemma clear_after_set (w b : Z) :
  0 <= b -> Z.testbit w b = false ->
  Z.land (Z.lor w (Z.shiftl 1 b)) (Z.lnot (Z.shiftl 1 b)) = w.
Proof.
  intros Hb Hbit. apply Z.bits_inj'. intros n Hn.
  rewrite testbit_clear, testbit_set by assumption.
  destruct (Z.eqb_spec b n) as [->|_]; simpl.
  - rewrite Hbit. reflexivity.
  - rewrite orb_false_r. apply andb_true_r.
Qed.

Lemma set_after_clear (w b : Z) :
  0 <= b -> Z.testbit w b = true ->
  Z.lor (Z.land w (Z.lnot (Z.shiftl 1 b))) (Z.shiftl 1 b) = w.
Proof.
  intros Hb Hbit. apply Z.bits_inj'. intros n Hn.
  rewrite testbit_set, testbit_clear by assumption.
  destruct (Z.eqb_spec b n) as [->|_]; simpl.
  - rewrite Hbit. reflexivity.
  - rewrite orb_false_r. apply andb_true_r.
Qed.

(** A non-negative number is below [2^64] exactly when it has no bit from
    64 up. *)
Lemma is_u64_bits (x : Z) :
  is_u64 x <-> 0 <= x /\ forall n, 64 <= n -> Z.testbit x n = false.
Proof.
  unfold is_u64. split.
  - intros [H0 Hlt]. split; [assumption|]. intros n Hn.
    destruct (Z.eq_dec x 0) as [->|Hx]; [apply Z.bits_0|].
    apply Z.bits_above_log2; [assumption|].
    assert (Z.log2 x < 64) by (apply Z.log2_lt_pow2; lia). lia.
  - intros [H0 Hbits]. split; [assumption|].
    destruct (Z.lt_ge_cases x (2 ^ 64)) as [|Hge]; [assumption|].
    assert (Hpos : 0 < x) by lia.
    assert (Hlog : 64 <= Z.log2 x) by (apply Z.log2_le_pow2; lia).
    pose proof (Z.bit_log2 x Hpos) as Htop.
    rewrite Hbits in Htop by assumption. discriminate.
Qed.

Lemma is_u64_set (w b : Z) :
  0 <= b < 64 -> is_u64 w -> is_u64 (Z.lor w (Z.shiftl 1 b)).
Proof.
  intros Hb Hw. apply is_u64_bits in Hw as [H0 Hbits]. apply is_u64_bits. split.
  - apply Z.lor_nonneg. split; [assumption|].
    rewrite mask_is_pow2 by lia. apply Z.pow_nonneg. lia.
  - intros n Hn. rewrite testbit_set by lia. rewrite Hbits by assumption.
    destruct (Z.eqb_spec b n); [lia|reflexivity].
Qed.

Lemma is_u64_clear (w b : Z) :
  0 <= b -> is_u64 w -> is_u64 (Z.land w (Z.lnot (Z.shiftl 1 b))).
Proof.
  intros Hb Hw. apply is_u64_bits in Hw as [H0 Hbits]. apply is_u64_bits. split.
  - apply Z.land_nonneg. left. assumption.
  - intros n Hn. rewrite testbit_clear by lia. rewrite Hbits by assumption. reflexivity.
Qed.

Lemma bit_below_64 (m : Z) : 0 <= m mod 64 < 64.
Proof. apply Z.mod_pos_bound. lia. Qed.

Lemma set_slot_same (self : InFlightDedupe) (i : nat) (w : Z) :
  bitmask self !! i = Some w -> set_slot self i w = self.
Proof.
  intros Hw. destruct self as [n l]. unfold set_slot. simpl in *.
  f_equal. apply list_insert_id. assumption.
Qed.

Lemma set_slot_twice (self : InFlightDedupe) (i : nat) (w w' : Z) :
  set_slot (set_slot self i w) i w' = set_slot self i w'.
Proof. unfold set_slot. simpl. f_equal. apply list_insert_insert_eq. Qed.

(** *** The Python in-flight set, call by call *)

Lemma valid_slot (self : InFlightDedupe) (m : Z) :
  valid_market self m -> exists w, bitmask self !! Z.to_nat (m / 64) = Some w.
Proof.
  intros Hv. destruct (py_index_valid _ _ Hv) as [_ Hlt].
  apply lookup_lt_is_Some_2. exact Hlt.
Qed.

Lemma try_claim_at (self : InFlightDedupe) (m w : Z) :
  valid_market self m ->
  bitmask self !! Z.to_nat (m / 64) = Some w ->
  try_claim self m
  = if Z.testbit w (m mod 64) then (Returns false, self)
    else (Returns true,
          set_slot self (Z.to_nat (m / 64)) (Z.lor w (Z.shiftl 1 (m mod 64)))).
Proof.
  intros Hv Hw. unfold try_claim.
  destruct (py_index_valid _ _ Hv) as [-> _]. rewrite Hw.
  rewrite land_mask_zero by apply bit_nonneg. rewrite negb_involutive.
  reflexivity.
Qed.

Lemma release_at (self : InFlightDedupe) (m w : Z) :
  valid_market self m ->
  bitmask self !! Z.to_nat (m / 64) = Some w ->
  release self m
  = (Returns tt,
     set_slot self (Z.to_nat (m / 64)) (Z.land w (Z.lnot (Z.shiftl 1 (m mod 64))))).
Proof.
  intros Hv Hw. unfold release.
  destruct (py_index_valid _ _ Hv) as [-> _]. rewrite Hw. reflexivity.
Qed.

Lemma set_slot_lookup (self : InFlightDedupe) (m w w' : Z) :
  bitmask self !! Z.to_nat (m / 64) = Some w ->
  bitmask (set_slot self (Z.to_nat (m / 64)) w') !! Z.to_nat (m / 64) = Some w'.
Proof.
  intros Hw. unfold set_slot. simpl.
  apply list_lookup_insert_eq. eapply lookup_lt_Some; eauto.
Qed.

Lemma set_slot_valid (self : InFlightDedupe) (i : nat) (w m : Z) :
  valid_market self m -> valid_market (set_slot self i w) m.
Proof. unfold valid_market. rewrite set_slot_length. auto. Qed.

(** X1. Releasing a market that is not in flight returns normally and
    leaves the object exactly as it was; hence a second [release] of the
    same market changes nothing more. *)
Theorem release_free_is_noop (self : InFlightDedupe) (m : Z) :
  valid_market self m ->
  (in_flight self m = false -> release self m = (Returns tt, self))
  /\ release (release self m).2 m = (Returns tt, (release self m).2).
Proof.
  intros Hv. destruct (valid_slot self m Hv) as [w Hw].
  assert (Hfree : forall s x, valid_market s m ->
            bitmask s !! Z.to_nat (m / 64) = Some x ->
            Z.testbit x (m mod 64) = false -> release s m = (Returns tt, s)).
  { intros s x Hs Hx Hbit. rewrite (release_at s m x Hs Hx).
    rewrite clear_bit_already_clear by (apply bit_nonneg || assumption).
    rewrite set_slot_same by assumption. reflexivity. }
  split.
  - intros Hfl. unfold in_flight in Hfl. rewrite Hw in Hfl. eauto.
  - rewrite (release_at self m w Hv Hw). simpl.
    eapply Hfree.
    + apply set_slot_valid. exact Hv.
    + eapply set_slot_lookup. exact Hw.
    + rewrite testbit_clear by apply bit_nonneg.
      rewrite Z.eqb_refl. apply andb_false_r.
Qed.

Lemma release_free_is_noop_witness :
  release InFlightDedupe_default 130 = (Returns tt, InFlightDedupe_default).
Proof.
  destruct (release_free_is_noop InFlightDedupe_default 130) as [Hfree _].
  - apply init_valid. lia.
  - apply Hfree. reflexivity.
Defined.

(** X2. Claim and release undo each other exactly: on a free market,
    [try_claim] followed by [release] gives back the object as it was, and
    on a market in flight so does [release] followed by [try_claim] (which
    then returns [True]). *)
Theorem claim_release_round_trip (self : InFlightDedupe) (m : Z) :
  valid_market self m ->
  (in_flight self m = false ->
   (try_claim self m).1 = Returns true
   /\ release (try_claim self m).2 m = (Returns tt, self))
  /\ (in_flight self m = true ->
      try_claim (release self m).2 m = (Returns true, self)).
Proof.
  intros Hv. destruct (valid_slot self m Hv) as [w Hw].
  unfold in_flight. rewrite Hw. split; intros Hbit.
  - rewrite (try_claim_at self m w Hv Hw), Hbit. simpl. split; [reflexivity|].
    erewrite release_at;
      [| apply set_slot_valid; exact Hv | eapply set_slot_lookup; exact Hw].
    rewrite clear_after_set by (apply bit_nonneg || assumption).
    rewrite set_slot_twice, set_slot_same by assumption. reflexivity.
  - rewrite (release_at self m w Hv Hw). simpl.
    erewrite try_claim_at;
      [| apply set_slot_valid; exact Hv | eapply set_slot_lookup; exact Hw].
    rewrite testbit_clear by apply bit_nonneg.
    rewrite Z.eqb_refl, andb_false_r.
    rewrite set_after_clear by (apply bit_nonneg || assumption).
    rewrite set_slot_twice, set_slot_same by assumption. reflexivity.
Qed.

Lemma claim_release_round_trip_witness :
  release (try_claim InFlightDedupe_default 77).2 77
  = (Returns tt, InFlightDedupe_default).
Proof.
  destruct (claim_release_round_trip InFlightDedupe_default 77) as [Hfree _].
  - apply init_valid. lia.
  - apply Hfree. reflexivity.
Defined.

(** X3. Started from a fresh [InFlightDedupe(num_markets)], any sequence of
    [try_claim] and [release] calls on the ids the bitmask covers observes
    exactly what a set of ids would answer: a claim returns [True] when the
    id is not in the set and puts it in, a release takes it out. *)
Theorem fresh_dedupe_is_a_set (num_markets : Z) (ops : list op) :
  Forall (fun o => 0 <= op_market o < 64 * (num_markets / 64)) ops ->
  (run (InFlightDedupe_init num_markets) ops).1 = (set_run ∅ ops).1.
Proof.
  intros Hops. apply run_refines_set; [|apply init_represents_empty].
  eapply Forall_impl; [exact Hops|]. intros o Ho.
  unfold valid_market, InFlightDedupe_init. cbn [bitmask].
  rewrite length_replicate. generalize dependent (num_markets / 64). lia.
Qed.

Lemma fresh_dedupe_is_a_set_witness :
  (run (InFlightDedupe_init 512)
     [TryClaim 5; TryClaim 5; Release 5; TryClaim 5; TryClaim 500; Release 9]).1
  = (set_run ∅
       [TryClaim 5; TryClaim 5; Release 5; TryClaim 5; TryClaim 500; Release 9]).1.
Proof.
  apply (fresh_dedupe_is_a_set 512).
  repeat constructor; simpl; lia.
Defined.

Lemma try_claim_keeps (self : InFlightDedupe) (m : Z) :
  Forall is_u64 (bitmask self) ->
  Forall is_u64 (bitmask (try_claim self m).2)
  /\ length (bitmask (try_claim self m).2) = length (bitmask self)
  /\ num_slots (try_claim self m).2 = num_slots self.
Proof.
  intros Hall. unfold try_claim.
  destruct (py_index _ _) as [i|]; [|auto].
  destruct (bitmask self !! i) as [w|] eqn:Hw; [|auto].
  destruct (negb _); [auto|]. simpl.
  split; [|split; [apply length_insert | reflexivity]].
  apply Forall_insert; [assumption|].
  apply is_u64_set; [apply bit_below_64|].
  eapply Forall_lookup_1; eauto.
Qed.

Lemma release_keeps (self : InFlightDedupe) (m : Z) :
  Forall is_u64 (bitmask self) ->
  Forall is_u64 (bitmask (release self m).2)
  /\ length (bitmask (release self m).2) = length (bitmask self)
  /\ num_slots (release self m).2 = num_slots self.
Proof.
  intros Hall. unfold release.
  destruct (py_index _ _) as [i|]; [|auto].
  destruct (bitmask self !! i) as [w|] eqn:Hw; [|auto]. simpl.
  split; [|split; [apply length_insert | reflexivity]].
  apply Forall_insert; [assumption|].
  apply is_u64_clear; [apply bit_nonneg|].
  eapply Forall_lookup_1; eauto.
Qed.

Lemma step_keeps (self : InFlightDedupe) (o : op) :
  Forall is_u64 (bitmask self) ->
  Forall is_u64 (bitmask (step self o).2)
  /\ length (bitmask (step self o).2) = length (bitmask self)
  /\ num_slots (step self o).2 = num_slots self.
Proof.
  intros Hall. destruct o as [m|m]; simpl.
  - pose proof (try_claim_keeps self m Hall) as H.
    destruct (try_claim self m) as [[b|e] s']; exact H.
  - pose proof (release_keeps self m Hall) as H.
    destruct (release self m) as [[u|e] s']; exact H.
Qed.

Lemma run_keeps (ops : list op) :
  forall self,
    Forall is_u64 (bitmask self) ->
    Forall is_u64 (bitmask (run self ops).2)
    /\ length (bitmask (run self ops).2) = length (bitmask self)
    /\ num_slots (run self ops).2 = num_slots self.
Proof.
  induction ops as [|o ops IH]; intros self Hall; [simpl; auto|].
  destruct (step_keeps self o Hall) as (Hall1 & Hlen1 & Hn1).
  simpl. destruct (step self o) as [r s1]. simpl in *.
  destruct (IH s1 Hall1) as (Hall2 & Hlen2 & Hn2).
  destruct (run s1 ops) as [tr final]. simpl in *.
  split; [assumption|]. split; congruence.
Qed.

(** X4. Whatever is called on an [InFlightDedupe(num_markets)], with
    whatever ids, the bitmask keeps its [num_markets // 64] slots,
    [num_slots] keeps saying so, and every slot stays a 64-bit word
    (between 0 and 2^64 - 1), although Python integers are unbounded. *)
Theorem dedupe_words_stay_64_bit (num_markets : Z) (ops : list op) :
  let final := (run (InFlightDedupe_init num_markets) ops).2 in
  length (bitmask final) = Z.to_nat (num_markets / 64)
  /\ num_slots final = num_markets / 64
  /\ Forall is_u64 (bitmask final).
Proof.
  intros final. subst final.
  assert (Hinit : Forall is_u64 (bitmask (InFlightDedupe_init num_markets))).
  { unfold InFlightDedupe_init. simpl. apply Forall_replicate.
    unfold is_u64. split; [lia | apply Z.pow_pos_nonneg; lia]. }
  destruct (run_keeps ops _ Hinit) as (Hall & Hlen & Hn).
  split; [|split; assumption].
  rewrite Hlen. unfold InFlightDedupe_init. simpl. apply length_replicate.
Qed.

(** X5. [InFlightDedupe(num_markets)] rounds the number of markets down to
    a multiple of 64: on the fresh object [try_claim] and [release] raise
    [IndexError] for a non-negative id exactly when the id is at least
    [64 * (num_markets // 64)], so the last [num_markets % 64] of the
    requested ids are not covered. *)
Theorem constructor_rounds_down (num_markets m : Z) :
  0 <= m ->
  (try_claim (InFlightDedupe_init num_markets) m
   = (Raises IndexError, InFlightDedupe_init num_markets)
   <-> 64 * (num_markets / 64) <= m)
  /\ (release (InFlightDedupe_init num_markets) m
      = (Raises IndexError, InFlightDedupe_init num_markets)
      <-> 64 * (num_markets / 64) <= m).
Proof.
  intros Hm. set (self := InFlightDedupe_init num_markets).
  assert (Hlen : Z.of_nat (length (bitmask self)) = Z.max 0 (num_markets / 64)).
  { unfold self, InFlightDedupe_init. simpl. rewrite length_replicate. lia. }
  destruct (Z.lt_ge_cases m (64 * (num_markets / 64))) as [Hin|Hout].
  - assert (Hv : valid_market self m) by (unfold valid_market; lia).
    destruct (try_claim_valid self m Hv) as (s1 & Hc & _).
    destruct (release_valid self m Hv) as (s2 & Hr & _).
    rewrite Hc, Hr. split; split; intros H; try discriminate; lia.
  - assert (Hb : 64 * Z.of_nat (length (bitmask self)) <= m) by lia.
    rewrite try_claim_beyond, release_beyond by assumption.
    split; split; auto.
Qed.

Lemma constructor_rounds_down_witness :
  try_claim (InFlightDedupe_init 100) 64
  = (Raises IndexError, InFlightDedupe_init 100).
Proof.
  destruct (constructor_rounds_down 100 64) as [[_ Hraise] _]; [lia|].
  apply Hraise. vm_compute. discriminate.
Defined.

(** X6. Negative ids are not rejected.  With [n] slots, an id [k] with
    [-64 * n <= k < 0] goes through Python's negative subscripts and acts
    on the bit of market [k + 64 * n]: [try_claim] and [release] do exactly
    what they do for that market.  Only below [-64 * n] do they raise. *)
Theorem negative_ids_alias (self : InFlightDedupe) (k : Z) :
  k < 0 ->
  let n := Z.of_nat (length (bitmask self)) in
  (- (64 * n) <= k ->
   try_claim self k = try_claim self (k + 64 * n)
   /\ release self k = release self (k + 64 * n))
  /\ (k < - (64 * n) ->
      try_claim self k = (Raises IndexError, self)
      /\ release self k = (Raises IndexError, self)).
Proof.
  intros Hk n. subst n. set (len := length (bitmask self)).
  assert (Hneg : k / 64 < 0) by (apply Z.div_lt_upper_bound; lia).
  split.
  - intros Hlo.
    assert (Hdiv : (k + 64 * Z.of_nat len) / 64 = k / 64 + Z.of_nat len).
    { replace (k + 64 * Z.of_nat len) with (k + Z.of_nat len * 64) by lia.
      apply Z.div_add. lia. }
    assert (Hmod : (k + 64 * Z.of_nat len) mod 64 = k mod 64).
    { replace (k + 64 * Z.of_nat len) with (k + Z.of_nat len * 64) by lia.
      apply Z.mod_add. lia. }
    assert (Hge : - Z.of_nat len <= k / 64) by (apply Z.div_le_lower_bound; lia).
    assert (Hidx : py_index len (k / 64) = py_index len (k / 64 + Z.of_nat len)).
    { unfold py_index.
      destruct (Z.leb_spec 0 (k / 64)); [lia|].
      destruct (Z.leb_spec (- Z.of_nat len) (k / 64)); [|lia].
      destruct (Z.leb_spec 0 (k / 64 + Z.of_nat len)); [|lia].
      destruct (Z.ltb_spec (k / 64 + Z.of_nat len) (Z.of_nat len)); [|lia].
      f_equal. lia. }
    unfold try_claim, release. fold len. rewrite Hdiv, Hmod, Hidx. auto.
  - intros Hlo.
    assert (Hlt : k / 64 < - Z.of_nat len) by (apply Z.div_lt_upper_bound; lia).
    assert (Hidx : py_index len (k / 64) = None).
    { unfold py_index.
      destruct (Z.leb_spec 0 (k / 64)); [lia|].
      destruct (Z.leb_spec (- Z.of_nat len) (k / 64)); [lia|reflexivity]. }
    unfold try_claim, release. fold len. rewrite Hidx. auto.
Qed.

Lemma negative_ids_alias_witness :
  try_claim InFlightDedupe_default (-512) = try_claim InFlightDedupe_default 0
  /\ try_claim InFlightDedupe_default (-513)
     = (Raises IndexError, InFlightDedupe_default).
Proof.
  destruct (negative_ids_alias InFlightDedupe_default (-512)) as [Hin _]; [lia|].
  destruct (negative_ids_alias InFlightDedupe_default (-513)) as [_ Hout]; [lia|].
  split.
  - apply Hin. simpl. lia.
  - apply Hout. simpl. lia.
Defined.

(** *** The Rust claim *)

(** X7. On market ids below 512 the Python port answers as the Rust
    original: over the same eight words, the Rust claim proceeds exactly
    when [try_claim] returns [True], reports the market in flight exactly
    when [try_claim] returns [False], and leaves the same words. *)
Theorem rust_claim_matches_python (words : list Z) (m : Z) :
  length words = 8%nat ->
  0 <= m < 512 ->
  let self := {| num_slots := 8; bitmask := words |} in
  rust_claim words m
  = (match (try_claim self m).1 with
     | Returns true => Proceeds
     | _ => AlreadyInFlight
     end,
     bitmask (try_claim self m).2).
Proof.
  intros Hlen Hm self.
  destruct (rust_claim_below_512 words m Hlen Hm) as (prev & Hprev & Hrust & _).
  assert (Hv : valid_market self m) by (unfold valid_market, self; simpl; lia).
  rewrite Hrust, (try_claim_at self m prev Hv Hprev).
  destruct (Z.testbit prev (m mod 64)) eqn:Hbit; simpl; [|reflexivity].
  rewrite set_bit_already_set by (apply bit_nonneg || assumption).
  rewrite list_insert_id by assumption. reflexivity.
Qed.

Lemma rust_claim_matches_python_witness :
  rust_claim (replicate 8 0) 70
  = (Proceeds, bitmask (try_claim {| num_slots := 8; bitmask := replicate 8 0 |} 70).2).
Proof.
  apply (rust_claim_matches_python (replicate 8 0) 70); [reflexivity | lia].
Defined.

(** X8. With its eight 64-bit words the Rust claim never indexes out of
    bounds: for every [u16] market id, below 512 or not, it does not panic,
    it keeps eight words, and each stays within 64 bits. *)
Theorem rust_claim_in_bounds (words : list Z) (m : Z) :
  length words = 8%nat ->
  Forall is_u64 words ->
  is_u16 m ->
  (rust_claim words m).1 <> Panics
  /\ length (rust_claim words m).2 = 8%nat
  /\ Forall is_u64 (rust_claim words m).2.
Proof.
  intros Hlen Hall [Hm0 _].
  destruct (Z.lt_ge_cases m 512) as [Hlt|Hge].
  - destruct (rust_claim_below_512 words m Hlen (conj Hm0 Hlt))
      as (prev & Hprev & -> & _). simpl.
    split; [destruct (Z.testbit prev (m mod 64)); discriminate|].
    split; [rewrite length_insert; exact Hlen|].
    apply Forall_insert; [assumption|].
    apply is_u64_set; [apply bit_below_64|].
    eapply Forall_lookup_1; eauto.
  - unfold rust_claim. destruct (Z.ltb_spec m 512); [lia|]. simpl.
    split; [discriminate | auto].
Qed.

Lemma rust_claim_in_bounds_witness :
  (rust_claim (replicate 8 0) 511).1 <> Panics
  /\ (rust_claim (replicate 8 0) 65535).1 <> Panics.
Proof.
  split.
  - apply (rust_claim_in_bounds (replicate 8 0) 511); [reflexivity | |].
    + repeat constructor; unfold is_u64; lia.
    + unfold is_u16. lia.
  - apply (rust_claim_in_bounds (replicate 8 0) 65535); [reflexivity | |].
    + repeat constructor; unfold is_u64; lia.
    + unfold is_u16. lia.
Defined.

(** *** The fee function over all integers *)

Lemma fee_formula (p : Z) :
  1 <= p <= 100 -> kalshi_fee_cents p = (7 * p * (100 - p) + 9999) / 10000.
Proof.
  intros Hp. unfold kalshi_fee_cents.
  destruct (Z.ltb_spec 100 p); [lia|].
  destruct (Z.eqb_spec p 0); [lia|]. reflexivity.
Qed.

Lemma fee_negative_price (p : Z) :
  p < 0 -> kalshi_fee_cents p = (7 * p * (100 - p) + 9999) / 10000.
Proof.
  intros Hp. unfold kalshi_fee_cents.
  destruct (Z.ltb_spec 100 p); [lia|].
  destruct (Z.eqb_spec p 0); [lia|]. reflexivity.
Qed.



(** X10. Buying YES at [p] and buying NO at [100 - p] cost the same fee:
    for every price from 0 to 100, [kalshi_fee_cents p] equals
    [kalshi_fee_cents (100 - p)] (also at the ends, where one side takes
    the early return and the other the formula). *)
Theorem kalshi_fee_symmetric (p : Z) :
  0 <= p <= 100 -> kalshi_fee_cents p = kalshi_fee_cents (100 - p).
Proof.
  intros Hp.
  destruct (Z.eq_dec p 0) as [->|H0]; [reflexivity|].
  destruct (Z.eq_dec p 100) as [->|H100]; [reflexivity|].
  rewrite !fee_formula by lia. f_equal. ring.
Qed.

Lemma kalshi_fee_symmetric_witness :
  kalshi_fee_cents 0 = kalshi_fee_cents 100
  /\ kalshi_fee_cents 17 = kalshi_fee_cents 83.
Proof.
  split.
  - apply (kalshi_fee_symmetric 0). lia.
  - apply (kalshi_fee_symmetric 17). lia.
Defined.

(** X11. A negative price is not rejected: the function returns a fee that
    is never positive, 0 for prices -12 to -1 and negative for every price
    from -13 down. *)
Theorem kalshi_fee_negative_price (p : Z) :
  p < 0 ->
  kalshi_fee_cents p <= 0
  /\ (kalshi_fee_cents p = 0 <-> -12 <= p)
  /\ (kalshi_fee_cents p < 0 <-> p <= -13).
Proof.
  intros Hp. rewrite fee_negative_price by assumption.
  destruct (Z.lt_ge_cases p (-12)) as [Hlow|Hhigh].
  - assert (Hnum : 7 * p * (100 - p) + 9999 < 0) by nia.
    assert (Hfee : (7 * p * (100 - p) + 9999) / 10000 < 0)
      by (apply Z.div_lt_upper_bound; lia).
    split; [lia|]. split; split; lia.
  - assert (Hnum : 0 <= 7 * p * (100 - p) + 9999 < 10000) by nia.
    rewrite Z.div_small by assumption.
    split; [lia|]. split; split; lia.
Qed.

Lemma kalshi_fee_negative_price_witness :
  kalshi_fee_cents (-12) = 0 /\ kalshi_fee_cents (-13) < 0.
Proof.
  destruct (kalshi_fee_negative_price (-12)) as (_ & [_ Hzero] & _); [lia|].
  destruct (kalshi_fee_negative_price (-13)) as (_ & _ & [_ Hneg]); [lia|].
  split; [apply Hzero | apply Hneg]; lia.
Defined.

(** *** The circuit breaker as a gate *)

Lemma can_execute_true (trip : CircuitBreaker -> string -> CircuitBreaker)
    (self : CircuitBreaker) (m c : Z) :
  (can_execute trip self m c).1 = true <->
  halted self = false
  /\ position_of self m + c <= max_position_per_market self
  /\ total_position self + c <= max_total_position self
  /\ Z_ltb_float (daily_pnl_cents self) (daily_floor_cents self) = false.
Proof.
  unfold can_execute.
  destruct (halted self); simpl; [split; [discriminate | intros [? _]; discriminate]|].
  destruct (Z.ltb_spec (max_position_per_market self) (position_of self m + c)); simpl;
    [split; [discriminate | lia]|].
  destruct (Z.ltb_spec (max_total_position self) (total_position self + c)); simpl;
    [split; [discriminate | lia]|].
  destruct (Z_ltb_float _ _); simpl;
    [split; [discriminate | intros (_ & _ & _ & ?); discriminate]|].
  split; auto.
Qed.

Lemma can_execute_true_state (trip : CircuitBreaker -> string -> CircuitBreaker)
    (self : CircuitBreaker) (m c : Z) :
  (can_execute trip self m c).1 = true -> can_execute trip self m c = (true, self).
Proof.
  unfold can_execute.
  repeat (match goal with |- context [if ?b then _ else _] => destruct b end;
          simpl; try discriminate).
  reflexivity.
Qed.

(** X12. The gate is monotone in the order size: if [can_execute] lets
    [contracts] through for a market, it lets every smaller count through
    for that market too (also zero and negative counts), and the breaker
    is unchanged. *)
Theorem can_execute_monotone (trip : CircuitBreaker -> string -> CircuitBreaker)
    (self : CircuitBreaker) (market_id contracts smaller : Z) :
  smaller <= contracts ->
  (can_execute trip self market_id contracts).1 = true ->
  can_execute trip self market_id smaller = (true, self).
Proof.
  intros Hle Hok. apply can_execute_true_state.
  apply can_execute_true in Hok as (Hh & Hpos & Htot & Hpnl).
  apply can_execute_true. repeat split; try assumption; lia.
Qed.

Lemma can_execute_monotone_witness :
  can_execute trip CircuitBreaker_init 7 (-3) = (true, CircuitBreaker_init).
Proof.
  apply (can_execute_monotone trip CircuitBreaker_init 7 50000 (-3)); [lia|].
  reflexivity.
Defined.

(** X13. An approval reserves nothing: when [can_execute] returns [True]
    the breaker is left exactly as it was, positions included, so the same
    candidate asked again any number of times is approved every time, even
    when the approved orders together exceed the caps. *)
Theorem approval_reserves_nothing (trip : CircuitBreaker -> string -> CircuitBreaker)
    (self : CircuitBreaker) (market_id contracts : Z) (n : nat) :
  (can_execute trip self market_id contracts).1 = true ->
  can_execute_all trip self (replicate n (market_id, contracts))
  = (replicate n true, self).
Proof.
  intros Hok. apply can_execute_true_state in Hok.
  induction n as [|n IH]; [reflexivity|].
  simpl. rewrite Hok, IH. reflexivity.
Qed.

Lemma approval_reserves_nothing_witness :
  can_execute_all trip CircuitBreaker_init (replicate 3 (1, 50000))
  = ([true; true; true], CircuitBreaker_init)
  /\ max_position_per_market CircuitBreaker_init < 3 * 50000.
Proof.
  split; [|reflexivity].
  apply (approval_reserves_nothing trip CircuitBreaker_init 1 50000 3).
  reflexivity.
Defined.

(** *** What the detector emits *)



(** *** The two oracle-risk gates *)

(** X16. The gate of the integration plan, in cents, and the gate of the
    strategy notes, in dollars, skip the same candidates: a whole number
    of cents is skipped by [profit_cents < MIN_ARB_SPREAD] exactly when the
    same amount in dollars is skipped by [spread < 0.15]. *)
Theorem spread_gates_agree (cents : Z) :
  spread_gate cents = None <-> oracle_risk_gate (dollars cents) = None.
Proof.
  unfold spread_gate, oracle_risk_gate, MIN_ARB_SPREAD.
  assert (Hq : Qltb (dollars cents) (15 / 100)%Q = (cents <? 15)).
  { unfold Qltb, dollars. simpl.
    destruct (Z.ltb_spec cents 15);
      [apply Z.ltb_lt | apply Z.ltb_ge]; lia. }
  rewrite Hq. destruct (cents <? 15); split; intros H; try discriminate; reflexivity.
Qed.

(** *** Reconciliation *)

(** X17. What reconciliation reports, for legs filled at non-negative
    prices and amounts that stay within the integer type (so that a debug
    and a release build agree): the profit is the locked margin of the
    matched pairs less the full cost of every unmatched contract, so it is
    never more than [matched * (100 - yes_price - no_price)]; and
    [success] holds exactly when both legs filled something. *)
Theorem reconcile_profit_decomposition (int_min int_max : Z) (mode : overflow_mode)
    (yes_filled no_filled yes_price no_price : Z) :
  0 <= yes_price -> 0 <= no_price ->
  fits int_min int_max (Z.min yes_filled no_filled * 100) ->
  fits int_min int_max (yes_price * yes_filled + no_price * no_filled) ->
  fits int_min int_max
    (Z.min yes_filled no_filled * 100
     - (yes_price * yes_filled + no_price * no_filled)) ->
  exists r,
    reconcile int_min int_max mode yes_filled no_filled
      (yes_price * yes_filled) (no_price * no_filled) = Some r
    /\ actual_profit r
       = matched r * (100 - yes_price - no_price)
         - (yes_filled - matched r) * yes_price
         - (no_filled - matched r) * no_price
    /\ 0 <= yes_filled - matched r
    /\ 0 <= no_filled - matched r
    /\ actual_profit r <= matched r * (100 - yes_price - no_price)
    /\ (success r = true <-> 0 < yes_filled /\ 0 < no_filled).
Proof.
  intros Hy Hn Hg Hc Hp. eexists. split; [apply reconcile_fits; assumption|].
  simpl.
  assert (Hmy : 0 <= yes_filled - Z.min yes_filled no_filled) by lia.
  assert (Hmn : 0 <= no_filled - Z.min yes_filled no_filled) by lia.
  split; [ring|]. split; [assumption|]. split; [assumption|]. split.
  - assert (0 <= (yes_filled - Z.min yes_filled no_filled) * yes_price)
      by (apply Z.mul_nonneg_nonneg; assumption).
    assert (0 <= (no_filled - Z.min yes_filled no_filled) * no_price)
      by (apply Z.mul_nonneg_nonneg; assumption).
    nia.
  - rewrite Z.ltb_lt. lia.
Qed.

Lemma reconcile_profit_decomposition_witness :
  exists r,
    reconcile (- 2 ^ 63) (2 ^ 63 - 1) WrapOnOverflow 100 80 (45 * 100) (50 * 80)
    = Some r
    /\ actual_profit r
       = matched r * (100 - 45 - 50) - (100 - matched r) * 45 - (80 - matched r) * 50.
Proof.
  destruct (reconcile_profit_decomposition (- 2 ^ 63) (2 ^ 63 - 1) WrapOnOverflow
              100 80 45 50) as (r & Hr & Hprofit & _);
    try (unfold fits; simpl; lia); try lia.
  exists r. split; assumption.
Defined.

(** *** The packed order book *)

Lemma high_bits_clear (b k n : Z) :
  0 <= b < 2 ^ k -> k <= n -> Z.testbit b n = false.
Proof.
  intros Hb Hn. destruct (Z.eq_dec b 0) as [->|Hne]; [apply Z.bits_0|].
  assert (0 <= k).
  { destruct (Z.lt_ge_cases k 0) as [Hk|]; [|assumption].
    rewrite Z.pow_neg_r in Hb by assumption. lia. }
  apply Z.bits_above_log2; [lia|].
  assert (Z.log2 b < k) by (apply Z.log2_lt_pow2; lia). lia.
Qed.

Lemma lor_shiftl_add (a b k : Z) :
  0 <= k -> 0 <= b < 2 ^ k -> Z.lor (Z.shiftl a k) b = a * 2 ^ k + b.
Proof.
  intros Hk Hb. rewrite <- Z.shiftl_mul_pow2 by assumption.
  symmetry. apply Z.add_nocarry_lor.
  apply Z.bits_inj'. intros n Hn.
  rewrite Z.land_spec, Z.bits_0, Z.shiftl_spec by assumption.
  destruct (Z.lt_ge_cases n k).
  - rewrite Z.testbit_neg_r by lia. reflexivity.
  - rewrite (high_bits_clear b k n) by assumption. apply andb_false_r.
Qed.

Lemma u64_shifted_field (x k : Z) :
  is_u16 x -> 0 <= k <= 48 -> u64 (Z.shiftl (u64 x) k) = Z.shiftl x k.
Proof.
  unfold is_u16, u64. intros Hx Hk.
  assert (H16 : 2 ^ 16 * 2 ^ 48 = 2 ^ 64) by reflexivity.
  assert (Hpk : 0 < 2 ^ k <= 2 ^ 48).
  { split; [apply Z.pow_pos_nonneg; lia | apply Z.pow_le_mono_r; lia]. }
  rewrite (Z.mod_small x) by lia.
  rewrite Z.shiftl_mul_pow2 by lia.
  apply Z.mod_small. nia.
Qed.

(** For 16-bit fields the packed word is the four fields side by side. *)
Lemma pack_orderbook_value (yes_ask no_ask yes_size no_size : Z) :
  is_u16 yes_ask -> is_u16 no_ask -> is_u16 yes_size -> is_u16 no_size ->
  pack_orderbook yes_ask no_ask yes_size no_size
  = yes_ask * 2 ^ 48 + no_ask * 2 ^ 32 + yes_size * 2 ^ 16 + no_size.
Proof.
  intros Hya Hna Hys Hns. unfold pack_orderbook.
  rewrite !u64_shifted_field by (assumption || lia).
  assert (Hd : u64 no_size = no_size)
    by (unfold u64, is_u16 in *; apply Z.mod_small; lia).
  rewrite Hd, <- !Z.lor_assoc.
  unfold is_u16 in *.
  rewrite (lor_shiftl_add yes_size no_size 16) by lia.
  rewrite (lor_shiftl_add no_ask _ 32) by lia.
  rewrite (lor_shiftl_add yes_ask _ 48) by lia.
  ring.
Qed.

(** X18. The layout holds what the comment says: for four 16-bit values
    the packed word fits in 64 bits, and the 16-bit fields at bits 48, 32,
    16 and 0 are [yes_ask], [no_ask], [yes_size] and [no_size] again. *)
Theorem pack_orderbook_round_trip (yes_ask no_ask yes_size no_size : Z) :
  is_u16 yes_ask -> is_u16 no_ask -> is_u16 yes_size -> is_u16 no_size ->
  let word := pack_orderbook yes_ask no_ask yes_size no_size in
  is_u64 word
  /\ book_field word 48 = yes_ask
  /\ book_field word 32 = no_ask
  /\ book_field word 16 = yes_size
  /\ book_field word 0 = no_size.
Proof.
  intros Hya Hna Hys Hns word. subst word.
  rewrite pack_orderbook_value by assumption.
  unfold book_field, is_u64, is_u16 in *.
  rewrite !Z.land_ones, !Z.shiftr_div_pow2 by lia.
  change (2 ^ 64) with 18446744073709551616.
  change (2 ^ 48) with 281474976710656.
  change (2 ^ 32) with 4294967296.
  change (2 ^ 16) with 65536 in *.
  change (2 ^ 0) with 1.
  repeat split; try lia; Z.div_mod_to_equations; lia.
Qed.

Lemma pack_orderbook_round_trip_witness :
  book_field (pack_orderbook 45 56 100 80) 48 = 45
  /\ book_field (pack_orderbook 45 56 100 80) 0 = 80.
Proof.
  assert (H45 : is_u16 45) by (unfold is_u16; lia).
  assert (H56 : is_u16 56) by (unfold is_u16; lia).
  assert (H100 : is_u16 100) by (unfold is_u16; lia).
  assert (H80 : is_u16 80) by (unfold is_u16; lia).
  destruct (pack_orderbook_round_trip 45 56 100 80 H45 H56 H100 H80)
    as (_ & Hya & _ & _ & Hns).
  split; assumption.
Defined.

(** X19. Packing loses nothing: two books of 16-bit values that pack to
    the same word are the same book. *)
Theorem pack_orderbook_injective
    (yes_ask no_ask yes_size no_size yes_ask' no_ask' yes_size' no_size' : Z) :
  is_u16 yes_ask -> is_u16 no_ask -> is_u16 yes_size -> is_u16 no_size ->
  is_u16 yes_ask' -> is_u16 no_ask' -> is_u16 yes_size' -> is_u16 no_size' ->
  pack_orderbook yes_ask no_ask yes_size no_size
  = pack_orderbook yes_ask' no_ask' yes_size' no_size' ->
  yes_ask = yes_ask' /\ no_ask = no_ask'
  /\ yes_size = yes_size' /\ no_size = no_size'.
Proof.
  intros H1 H2 H3 H4 H5 H6 H7 H8.
  rewrite !pack_orderbook_value by assumption.
  unfold is_u16 in *.
  change (2 ^ 48) with 281474976710656.
  change (2 ^ 32) with 4294967296.
  change (2 ^ 16) with 65536 in *.
  lia.
Qed.

Lemma pack_orderbook_injective_witness :
  45 = 45 /\ 56 = 56 /\ 100 = 100 /\ 80 = 80.
Proof.
  assert (H45 : is_u16 45) by (unfold is_u16; lia).
  assert (H56 : is_u16 56) by (unfold is_u16; lia).
  assert (H100 : is_u16 100) by (unfold is_u16; lia).
  assert (H80 : is_u16 80) by (unfold is_u16; lia).
  apply (pack_orderbook_injective 45 56 100 80 45 56 100 80
           H45 H56 H100 H80 H45 H56 H100 H80).
  reflexivity.
Defined.
